(** * Exact inference for the medical-diagnosis Bayesian network

    A shallow embedding of the three diagnosis scripts
    ([redBayesianaPmgpy.py], [reyBayesiana.py], [redBayesianaPyMC.py]):
    their probability tables, the glue code that turns a symptom
    dictionary into an inference call, and the exact-inference engine the
    scripts call into.

    Probabilities are the decimal literals of the scripts read as exact
    rationals ([Qc]); dictionaries are [gmap]s or item lists in insertion
    order; a Python call that may raise is a value of [result]. *)

From Stdlib Require Import QArith Qcanon Permutation.
From stdpp Require Import gmap strings list.

Open Scope string_scope.
Open Scope list_scope.
Open Scope Qc_scope.

(** ** Outcomes of fallible calls *)

Inductive ErrorKind :=
  | CyclicGraphError
  | MissingCPDError
  | ScopeMismatchError
  | UnnormalizedCPDError
  | InvalidQueryError
  | VariableNotInScopeError
  | InvalidStateError
  | DegenerateFactorError
  | ValueError
  | IndexError
  | AttributeError
  | AssertionError.

Inductive result (A : Type) :=
  | OK (a : A)
  | Raise (e : ErrorKind).
Arguments OK {A} a.
Arguments Raise {A} e.

Definition rbind {A B} (r : result A) (k : A → result B) : result B :=
  match r with
  | OK a => k a
  | Raise e => Raise e
  end.

Notation "'let*' x ':=' r 'in' k" := (rbind r (fun x => k))
  (at level 10, x name, r at level 100, k at level 200).

Fixpoint mapM {A B} (f : A → result B) (l : list A) : result (list B) :=
  match l with
  | [] => OK []
  | a :: l' => let* b := f a in let* bs := mapM f l' in OK (b :: bs)
  end.

Fixpoint foldM {A B} (f : A → B → result A) (a : A) (l : list B) : result A :=
  match l with
  | [] => OK a
  | b :: l' => let* a' := f a b in foldM f a' l'
  end.

(** ** Weights *)

(** A decimal literal of the scripts, as an exact rational. *)
Definition dec (q : Q) : Qc := Q2Qc q.

Definition sumQc (l : list Qc) : Qc := foldr Qcplus 0 l.
Definition prodQc (l : list Qc) : Qc := foldr Qcmult 1 l.

(** [sum_over n F] is F 0 + ... + F (n-1). *)
Definition sum_over (n : nat) (F : nat → Qc) : Qc := sumQc (map F (seq 0 n)).

Definition Qc_eqb (x y : Qc) : bool := Qeq_bool x y.
Definition Qc_leb (x y : Qc) : bool := Qle_bool x y.

(** ** Assignments and dense tables *)

(** A total assignment of state indices to variable names. *)
Definition env := string → nat.

Definition upd (ρ : env) (v : string) (s : nat) : env :=
  fun w => if decide (w = v) then s else ρ w.

(** All index tuples below the given cardinalities, in row-major order
    (the last axis varies fastest). *)
Fixpoint assignments (cards : list nat) : list (list nat) :=
  match cards with
  | [] => [[]]
  | c :: cs => flat_map (fun s => map (cons s) (assignments cs)) (seq 0 c)
  end.

Definition list_prod_nat (l : list nat) : nat := foldr Nat.mul 1%nat l.

(** Position of an index tuple in the row-major flattening. *)
Fixpoint flat_index (cards : list nat) (a : list nat) : nat :=
  match cards, a with
  | _ :: cs, s :: a' => (s * list_prod_nat cs + flat_index cs a')%nat
  | _, _ => 0%nat
  end.

(** The assignment that reads the tuple [a] along the axes [vs]. *)
Fixpoint env_of (vs : list string) (a : list nat) : env :=
  match vs, a with
  | v :: vs', s :: a' => fun w => if decide (w = v) then s else env_of vs' a' w
  | _, _ => fun _ => 0%nat
  end.

(** ** Factors

    The scripts obtain factors and inference from the pgmpy library, whose
    code is not part of the repository; this section follows the spec's
    description of the engine (sections 3, 4.2 and 4.5). *)

(** Modelled from the spec: the Factor value type (pgmpy's factor class is
    library code): an ordered scope and a dense array of weights indexed
    by the joint states of the scope, in row-major order. *)
Record Factor := mkFactor { scope : list string; weights : list Qc }.

Section FactorAlgebra.
(** The registry: the number of states of each variable. *)
Variable card : string → nat.

Definition cards (vs : list string) : list nat := map card vs.

(** Modelled from the spec: the weight a factor's dense array holds at an
    index tuple (0 outside the array). *)
Definition weight_at (f : Factor) (a : list nat) : Qc :=
  nth (flat_index (cards (scope f)) a) (weights f) 0.

(** Modelled from the spec: the weight of [f] at the sub-assignment of [ρ]
    to the scope of [f]. *)
Definition eval (f : Factor) (ρ : env) : Qc :=
  weight_at f (map ρ (scope f)).

(** Modelled from the spec: the dense table over the axes [vs] of a
    function of assignments. *)
Definition tabulate (vs : list string) (F : env → Qc) : Factor :=
  mkFactor vs (map (fun a => F (env_of vs a)) (assignments (cards vs))).

(** Modelled from the spec: the ordered union of two scopes, duplicates
    merged, order of first occurrence. *)
Definition union_scope (vs ws : list string) : list string :=
  vs ++ filter (λ w, w ∉ vs) ws.

Definition drop (v : string) (vs : list string) : list string :=
  filter (λ w, w ≠ v) vs.

(** Modelled from the spec: [product] of the Factor type (library code):
    the weight at a combined assignment is the product of the two weights
    at the respective sub-assignments. *)
Definition product (f g : Factor) : Factor :=
  tabulate (union_scope (scope f) (scope g)) (fun ρ => eval f ρ * eval g ρ).

(** Modelled from the spec: [marginalize] of the Factor type (library
    code): the variable leaves the scope, each remaining weight is the sum
    over its states. *)
Definition marginalize (v : string) (f : Factor) : result Factor :=
  if decide (v ∈ scope f)
  then OK (tabulate (drop v (scope f))
                    (fun ρ => sum_over (card v) (fun s => eval f (upd ρ v s))))
  else Raise VariableNotInScopeError.

(** Modelled from the spec: [reduceByEvidence] of the Factor type (library
    code): the slice where the variable has the given state, the variable
    leaving the scope. The state is given by its index. *)
Definition reduceByEvidence (v : string) (s : nat) (f : Factor) : result Factor :=
  if decide (v ∈ scope f)
  then if decide (s < card v)%nat
       then OK (tabulate (drop v (scope f)) (fun ρ => eval f (upd ρ v s)))
       else Raise InvalidStateError
  else Raise VariableNotInScopeError.

(** Modelled from the spec: [normalize] of the Factor type (library
    code): every weight divided by the sum, which must not be zero. *)
Definition normalize (f : Factor) : result Factor :=
  let z := sumQc (weights f) in
  if Qc_eqb z 0 then Raise DegenerateFactorError
  else OK (mkFactor (scope f) (map (fun w => w / z) (weights f))).

Definition unit_factor : Factor := mkFactor [] [1].

(** Modelled from the spec: the product of all factors of a working set
    (step 5 of the engine, library code). *)
Definition product_all (fs : list Factor) : Factor :=
  foldr product unit_factor fs.

(** Modelled from the spec: one elimination step of the engine (library
    code): the factors mentioning [v] are replaced by the marginal over
    [v] of their product. *)
Definition eliminate (fs : list Factor) (v : string) : result (list Factor) :=
  let* p := marginalize v (product_all (filter (λ f, v ∈ scope f) fs)) in
  OK (filter (λ f, v ∉ scope f) fs ++ [p]).

(** Modelled from the spec: evidence reduction of the engine (library
    code): a factor is reduced by every evidence variable in its scope. *)
Definition reduce_all (ev : string → option nat) (f : Factor) : result Factor :=
  foldM (fun g v => if ev v is Some s then reduceByEvidence v s g else OK g)
        f (scope f).

(** Modelled from the spec: steps 2, 4 and 5 of the engine's query
    protocol (library code) for a given elimination order. *)
Definition run_elimination (order : list string) (ev : string → option nat)
    (fs : list Factor) : result Factor :=
  let* reduced := mapM (reduce_all ev) fs in
  let* remaining := foldM eliminate reduced order in
  normalize (product_all remaining).
End FactorAlgebra.

(** ** The pgmpy script: network definition *)

(** [TabularCPD(variable, variable_card, values, evidence, evidence_card,
    state_names)]: one row of [values] per state of [variable], one column
    per joint state of [evidence], the last evidence variable varying
    fastest. *)
Record TabularCPD := mkCPD {
  variable : string;
  variable_card : nat;
  values : list (list Qc);
  evidence : list string;
  evidence_card : list nat;
  state_names : list (string * list string)
}.

(** [BayesianNetwork(edges)] followed by [add_cpds]. *)
Record BayesianNetwork := mkBN {
  edges : list (string * string);
  cpds : list TabularCPD
}.

Definition cpd_pg : TabularCPD :=
  mkCPD "PG" 3
        [[dec 0.3]; [dec 0.4]; [dec 0.3]]
        [] []
        [("PG", ["Alta"; "Media"; "Baja"])].

Definition cpd_gripe : TabularCPD :=
  mkCPD "Gripe" 2
        [[dec 0.6; dec 0.4; dec 0.2];
         [dec 0.4; dec 0.6; dec 0.8]]
        ["PG"] [3%nat]
        [("Gripe", ["Sí"; "No"]); ("PG", ["Alta"; "Media"; "Baja"])].

Definition cpd_neumonia : TabularCPD :=
  mkCPD "Neumonia" 2
        [[dec 0.7; dec 0.5; dec 0.3];
         [dec 0.3; dec 0.5; dec 0.7]]
        ["PG"] [3%nat]
        [("Neumonia", ["Sí"; "No"]); ("PG", ["Alta"; "Media"; "Baja"])].

Definition cpd_fiebre : TabularCPD :=
  mkCPD "Fiebre" 2
        [[dec 0.9; dec 0.8; dec 0.7; dec 0.1];
         [dec 0.1; dec 0.2; dec 0.3; dec 0.9]]
        ["Gripe"; "Neumonia"] [2%nat; 2%nat]
        [("Fiebre", ["Sí"; "No"]); ("Gripe", ["Sí"; "No"]);
         ("Neumonia", ["Sí"; "No"])].

Definition cpd_tos : TabularCPD :=
  mkCPD "Tos" 2
        [[dec 0.8; dec 0.2];
         [dec 0.2; dec 0.8]]
        ["Neumonia"] [2%nat]
        [("Tos", ["Sí"; "No"]); ("Neumonia", ["Sí"; "No"])].

Definition cpd_dolor : TabularCPD :=
  mkCPD "Dolor_cabeza" 2
        [[dec 0.7; dec 0.3];
         [dec 0.3; dec 0.7]]
        ["Gripe"] [2%nat]
        [("Dolor_cabeza", ["Sí"; "No"]); ("Gripe", ["Sí"; "No"])].

(** The network before the [check_model] assertion. *)
Definition modelo : BayesianNetwork :=
  mkBN [("PG", "Gripe"); ("PG", "Neumonia"); ("Gripe", "Fiebre");
        ("Neumonia", "Fiebre"); ("Neumonia", "Tos"); ("Gripe", "Dolor_cabeza")]
       [cpd_pg; cpd_gripe; cpd_neumonia; cpd_fiebre; cpd_tos; cpd_dolor].

(** ** The model as the engine sees it *)

(** The elements of a list, each once, in order of first occurrence. *)
Definition first_occurrences (l : list string) : list string :=
  rev (remove_dups (rev l)).

(** Modelled from the spec: the variables of a model (the graph object is
    library code): the nodes of the edge list, in order of first
    appearance. *)
Definition nodes (m : BayesianNetwork) : list string :=
  first_occurrences (flat_map (fun e => [e.1; e.2]) (edges m)).

(** Modelled from the spec: the declared parents of a variable, read off
    the edge list. *)
Definition parents (m : BayesianNetwork) (v : string) : list string :=
  map fst (filter (λ e, e.2 = v) (edges m)).

(** Modelled from the spec: the CPT attached to a variable. *)
Definition cpd_of (m : BayesianNetwork) (v : string) : option TabularCPD :=
  find (λ c, bool_decide (variable c = v)) (cpds m).

(** Modelled from the spec: the registry's cardinality of a variable, as
    its own CPD declares it. *)
Definition card (m : BayesianNetwork) (v : string) : nat :=
  match cpd_of m v with
  | Some c => variable_card c
  | None => 0%nat
  end.

Fixpoint assoc {V} (k : string) (l : list (string * V)) : option V :=
  match l with
  | [] => None
  | (k', x) :: l' => if decide (k = k') then Some x else assoc k l'
  end.

(** Modelled from the spec: the registry's state labels of a variable, as
    its own CPD declares them in [state_names]. *)
Definition states (m : BayesianNetwork) (v : string) : list string :=
  match cpd_of m v with
  | Some c => default [] (assoc v (state_names c))
  | None => []
  end.

Fixpoint index_of (x : string) (l : list string) : option nat :=
  match l with
  | [] => None
  | y :: l' => if decide (x = y) then Some 0%nat else S <$> index_of x l'
  end.

(** Modelled from the spec: a CPT is a factor over the child and its
    parents; for a [TabularCPD] the scope is [variable :: evidence] and the
    row-major flattening of [values] is the concatenation of its rows. *)
Definition to_factor (c : TabularCPD) : Factor :=
  mkFactor (variable c :: evidence c) (concat (values c)).

Definition factors (m : BayesianNetwork) : list Factor :=
  map to_factor (cpds m).

(** ** Model validation

    [check_model] is a pgmpy library call whose code is not part of the
    repository; this section follows the spec's validation step (section
    4.3), which checks, in order, (a) acyclicity by a topological sort,
    (b) one CPT per variable, (c) that each CPT's scope and dimensions
    match the declared parents, (d) local normalization within the
    tolerance. *)

(** Modelled from the spec: the tolerance 1e-6 of the local-normalization
    check. *)
Definition tolerance : Qc := dec 0.000001.

(** Modelled from the spec: the topological sort of check (a):
    repeatedly move the first pending node whose parents are all
    sorted. *)
Fixpoint topo_sort (fuel : nat) (par : string → list string)
    (pending sorted : list string) : option (list string) :=
  match pending, fuel with
  | [], _ => Some sorted
  | _, O => None
  | _, S n =>
      match find (λ v, bool_decide (Forall (λ p, p ∈ sorted) (par v))) pending with
      | Some v => topo_sort n par (drop v pending) (sorted ++ [v])
      | None => None
      end
  end.

Definition topological_order (m : BayesianNetwork) : option (list string) :=
  topo_sort (length (nodes m)) (parents m) (nodes m) [].

Definition ncols (c : TabularCPD) : nat := list_prod_nat (evidence_card c).

Definition column (c : TabularCPD) (j : nat) : list Qc :=
  map (fun row => nth j row 0) (values c).

(** Modelled from the spec: check (c), a CPT's scope is its variable and
    exactly the declared parents, each once, and its table has the
    dimensions the cardinalities dictate. *)
Definition scope_matches (m : BayesianNetwork) (c : TabularCPD) : Prop :=
  variable c ∈ nodes m
  ∧ NoDup (evidence c)
  ∧ Forall (λ p, p ∈ parents m (variable c)) (evidence c)
  ∧ Forall (λ p, p ∈ evidence c) (parents m (variable c))
  ∧ evidence_card c = map (card m) (evidence c)
  ∧ length (values c) = variable_card c
  ∧ Forall (λ row, length row = ncols c) (values c)
  ∧ length (states m (variable c)) = variable_card c
  ∧ (0 < variable_card c)%nat.

(** Modelled from the spec: the weights of a factor are non-negative. *)
Definition nonnegative (c : TabularCPD) : Prop :=
  Forall (Forall (λ w, 0 <= w)) (values c).

(** Modelled from the spec: the local-normalization invariant for one
    parent assignment (one column): the sum over the child's states is 1
    within the tolerance. *)
Definition column_normalized (c : TabularCPD) (j : nat) : Prop :=
  1 - tolerance <= sumQc (column c j) ∧ sumQc (column c j) <= 1 + tolerance.

(** Modelled from the spec: check (d) for one CPT. *)
Definition locally_normalized (c : TabularCPD) : Prop :=
  nonnegative c ∧ Forall (column_normalized c) (seq 0 (ncols c)).

#[global] Instance Qcle_dec (x y : Qc) : Decision (x <= y).
Proof.
  destruct (Qc_leb x y) eqn:E; [left | right]; unfold Qc_leb in E.
  - by apply Qle_bool_iff.
  - intros H. apply Qle_bool_iff in H. congruence.
Defined.

#[global] Instance scope_matches_dec m c : Decision (scope_matches m c).
Proof. unfold scope_matches. apply _. Defined.

#[global] Instance locally_normalized_dec c : Decision (locally_normalized c).
Proof. unfold locally_normalized, nonnegative, column_normalized. apply _. Defined.

(** Modelled from the spec: [validate()], standing for pgmpy's
    [check_model] (library code); the checks run in the order (a)-(d) and
    the first failure is reported. *)
Definition validate (m : BayesianNetwork) : result unit :=
  if topological_order m is None then Raise CyclicGraphError
  else if negb (bool_decide (Forall (λ v, is_Some (cpd_of m v)) (nodes m)
                            ∧ NoDup (map variable (cpds m))))
  then Raise MissingCPDError
  else if negb (bool_decide (Forall (scope_matches m) (cpds m)))
  then Raise ScopeMismatchError
  else if negb (bool_decide (Forall locally_normalized (cpds m)))
  then Raise UnnormalizedCPDError
  else OK ().

(** The local-normalization check for one column with an absolute
    tolerance [atol]; [check_model] of the library has a tolerance of its
    own, the spec asks for 1e-6. *)
Definition column_within (atol : Qc) (c : TabularCPD) (j : nat) : Prop :=
  1 - atol <= sumQc (column c j) ∧ sumQc (column c j) <= 1 + atol.

Definition normalized_within (atol : Qc) (c : TabularCPD) : Prop :=
  nonnegative c ∧ Forall (column_within atol c) (seq 0 (ncols c)).

#[global] Instance normalized_within_dec atol c : Decision (normalized_within atol c).
Proof. unfold normalized_within, nonnegative, column_within. apply _. Defined.






(** ** The query protocol

    [VariableElimination(modelo).query(variables, evidence)] is a pgmpy
    library call whose code is not part of the repository; this section
    follows the spec's query contract (sections 4.4 and 4.5). *)

(** Modelled from the spec: the state index an evidence mapping fixes for
    a variable, if any. *)
Definition evidence_index (m : BayesianNetwork) (evidence : gmap string string)
    (v : string) : option nat :=
  match evidence !! v with
  | Some label => index_of label (states m v)
  | None => None
  end.

(** Modelled from the spec: the preconditions of a query: a non-empty set
    of known targets, known evidence keys, targets disjoint from the
    evidence. *)
Definition valid_query (m : BayesianNetwork) (targets : list string)
    (evidence : gmap string string) : Prop :=
  targets ≠ []
  ∧ NoDup targets
  ∧ Forall (λ v, v ∈ nodes m) targets
  ∧ map_Forall (λ k _, k ∈ nodes m) evidence
  ∧ Forall (λ v, evidence !! v = None) targets.

(** Modelled from the spec: every evidence value is a state label of its
    variable. *)
Definition valid_states (m : BayesianNetwork) (evidence : gmap string string) : Prop :=
  map_Forall (λ k label, label ∈ states m k) evidence.

(** Modelled from the spec: the planner's input, all model variables
    minus the targets minus the evidence keys, in declaration order. *)
Definition elimination_set (m : BayesianNetwork) (targets : list string)
    (evidence : gmap string string) : list string :=
  filter (λ v, (v ∉ targets) ∧ (evidence !! v = None)) (nodes m).

(** Modelled from the spec: the planner (library code), with the
    baseline policy the spec allows, declaration order. *)
Definition plan := elimination_set.

(** Modelled from the spec: the engine's [query] (pgmpy library code) for
    a given elimination order: the model must validate, the query must
    meet its preconditions, then the factors are reduced, eliminated and
    normalized. *)
Definition query_with (order : list string) (m : BayesianNetwork)
    (targets : list string) (evidence : gmap string string) : result Factor :=
  let* _ := validate m in
  if negb (bool_decide (valid_query m targets evidence)) then Raise InvalidQueryError
  else if negb (bool_decide (valid_states m evidence)) then Raise InvalidStateError
  else run_elimination (card m) order (evidence_index m evidence) (factors m).

(** Modelled from the spec: [VariableElimination(m).query(variables,
    evidence)] (pgmpy library code), the engine run with the planner's
    order. *)
Definition query (m : BayesianNetwork) (targets : list string)
    (evidence : gmap string string) : result Factor :=
  query_with (plan m targets evidence) m targets evidence.

(** ** The pgmpy script: diagnosis *)

(** [list.remove(x)]: drops the first occurrence, [ValueError] if absent. *)
Fixpoint list_remove (x : string) (l : list string) : result (list string) :=
  match l with
  | [] => Raise ValueError
  | y :: l' =>
      if decide (x = y) then OK l'
      else let* r := list_remove x l' in OK (y :: r)
  end.

(** The names the loop recognizes as evidence
    ([if nombre in ['Fiebre', 'Tos', ...]]). *)
Definition reconocidas : list string :=
  ["Fiebre"; "Tos"; "Dolor_cabeza"; "Gripe"; "Neumonia"; "PG"].

(** The initial value of [enfermedades]. *)
Definition enfermedades_iniciales : list string :=
  ["PG"; "Gripe"; "Neumonia"; "Tos"; "Fiebre"; "Dolor_cabeza"].

(** One iteration of the loop over [sintomas.items()]; the state is the
    pair of [evidencias] and [enfermedades]. *)
Definition recoger (st : gmap string string * list string)
    (item : string * string) : result (gmap string string * list string) :=
  if decide (item.1 ∈ reconocidas)
  then let* resto := list_remove item.1 st.2 in
       OK (<[item.1 := item.2]> st.1, resto)
  else OK st.

(** The whole loop: from [sintomas] (the items of the dictionary, in
    insertion order) to [evidencias] and [enfermedades]. *)
Definition preparar (sintomas : list (string * string))
  : result (gmap string string * list string) :=
  foldM recoger (∅, enfermedades_iniciales) sintomas.

Section Consulta.
(** [infer.query], as a function of [variables] and [evidence]. *)
Variable infer_query : list string → gmap string string → result Factor.

(** One iteration of the loop over [enfermedades]. *)
Definition consultar (evidencias : gmap string string)
    (diagnostico : gmap string (list Qc)) (enf : string)
  : result (gmap string (list Qc)) :=
  let* resultado := infer_query [enf] evidencias in
  OK (<[enf := weights resultado]> diagnostico).
End Consulta.

Section Diagnostico.
(** [VariableElimination(modelo)]: what building the engine gives, an
    exception or the engine, of which the function uses [query] only. *)
Variable motor : result (list string → gmap string string → result Factor).

(** The body of the [try] block. *)
Definition diagnosticar_cuerpo (sintomas : list (string * string))
  : result (gmap string (list Qc)) :=
  let* st := preparar sintomas in
  let* infer_query := motor in
  foldM (consultar infer_query st.1) ∅ st.2.

(** [except Exception]: the error is printed and [None] is returned. *)
Definition diagnosticar_con (sintomas : list (string * string))
  : result (option (gmap string (list Qc))) :=
  match diagnosticar_cuerpo sintomas with
  | OK diagnostico => OK (Some diagnostico)
  | Raise _ => OK None
  end.
End Diagnostico.

(** Modelled from the spec: [VariableElimination(m)] (pgmpy library
    code): the engine is built only for a model that validates ("a model
    that fails validation must not accept queries"), and answers queries
    by [query]. *)
Definition VariableElimination (m : BayesianNetwork)
  : result (list string → gmap string string → result Factor) :=
  let* _ := validate m in OK (query m).

(** [diagnosticar_pgmpy(modelo, sintomas)], with the engine of the spec. *)
Definition diagnosticar_pgmpy (m : BayesianNetwork)
    (sintomas : list (string * string))
  : result (option (gmap string (list Qc))) :=
  diagnosticar_con (VariableElimination m) sintomas.

(** ** The pomegranate script *)

Module Pomegranate.
(** [DiscreteDistribution({label: p, ...})]. *)
Definition pg : list (string * Qc) :=
  [("Alta", dec 0.3); ("Media", dec 0.4); ("Baja", dec 0.3)].

(** [ConditionalProbabilityTable(rows, parents)]: a row lists the parent
    labels, then the child label, then the probability. *)
Definition gripe : list (list string * Qc) :=
  [(["Alta"; "Sí"], dec 0.6); (["Alta"; "No"], dec 0.4);
   (["Media"; "Sí"], dec 0.4); (["Media"; "No"], dec 0.6);
   (["Baja"; "Sí"], dec 0.2); (["Baja"; "No"], dec 0.8)].

Definition neumonia : list (list string * Qc) :=
  [(["Alta"; "Sí"], dec 0.7); (["Alta"; "No"], dec 0.3);
   (["Media"; "Sí"], dec 0.5); (["Media"; "No"], dec 0.5);
   (["Baja"; "Sí"], dec 0.3); (["Baja"; "No"], dec 0.7)].

Definition fiebre : list (list string * Qc) :=
  [(["Sí"; "Sí"; "Sí"], dec 0.9); (["Sí"; "Sí"; "No"], dec 0.1);
   (["Sí"; "No"; "Sí"], dec 0.8); (["Sí"; "No"; "No"], dec 0.2);
   (["No"; "Sí"; "Sí"], dec 0.7); (["No"; "Sí"; "No"], dec 0.3);
   (["No"; "No"; "Sí"], dec 0.1); (["No"; "No"; "No"], dec 0.9)].

Definition tos : list (list string * Qc) :=
  [(["Sí"; "Sí"], dec 0.8); (["Sí"; "No"], dec 0.2);
   (["No"; "Sí"], dec 0.3); (["No"; "No"], dec 0.7)].

Definition dolor_cabeza : list (list string * Qc) :=
  [(["Sí"; "Sí"], dec 0.7); (["Sí"; "No"], dec 0.3);
   (["No"; "Sí"], dec 0.2); (["No"; "No"], dec 0.8)].

(** The probability a table gives to a row key (0 when no row matches). *)
Fixpoint fila (key : list string) (rows : list (list string * Qc)) : Qc :=
  match rows with
  | [] => 0
  | (k, p) :: rows' => if decide (key = k) then p else fila key rows'
  end.

(** What [predict_proba] returns for a node: the observed label, or a
    distribution object whose [parameters[0]] maps labels to
    probabilities. *)
Inductive prediction :=
  | Observed (label : string)
  | Distribution (parameters : list (list (string * Qc))).

(** [result[i].parameters[0]]. *)
Definition parameters0 (result_ : list prediction) (i : nat)
  : result (list (string * Qc)) :=
  match result_ !! i with
  | None => Raise IndexError
  | Some (Observed _) => Raise AttributeError
  | Some (Distribution ps) =>
      match ps with
      | [] => Raise IndexError
      | d :: _ => OK d
      end
  end.

(** One iteration of the loop over [sintomas.items()]. *)
Definition recoger (evidencias : gmap string string)
    (item : string * string) : gmap string string :=
  if decide (item.1 = "Fiebre") then <["Fiebre" := item.2]> evidencias
  else if decide (item.1 = "Tos") then <["Tos" := item.2]> evidencias
  else if decide (item.1 = "Dolor_cabeza")
       then <["Dolor_cabeza" := item.2]> evidencias
  else evidencias.

(** The whole loop: the evidence passed to [predict_proba]. *)
Definition preparar (sintomas : list (string * string)) : gmap string string :=
  foldl recoger ∅ sintomas.

Section Diagnosticar.
(** [modelo.predict_proba], a pomegranate library call. *)
Variable predict_proba : gmap string string → result (list prediction).

Definition diagnosticar_cuerpo (sintomas : list (string * string))
  : result (list (string * list (string * Qc))) :=
  let* result_ := predict_proba (preparar sintomas) in
  let* d_pg := parameters0 result_ 0 in
  let* d_gripe := parameters0 result_ 1 in
  let* d_neumonia := parameters0 result_ 2 in
  OK [("PG", d_pg); ("Gripe", d_gripe); ("Neumonia", d_neumonia)].

Definition diagnosticar (sintomas : list (string * string))
  : result (option (list (string * list (string * Qc)))) :=
  match diagnosticar_cuerpo sintomas with
  | OK diagnostico => OK (Some diagnostico)
  | Raise _ => OK None
  end.
End Diagnosticar.
End Pomegranate.

(** ** The PyMC script *)

Module PyMC.
Definition pg_probs : list Qc := [dec 0.3; dec 0.4; dec 0.3].

(** [pm.math.switch(pm.math.eq(pg, 0), 0.6, switch(eq(pg, 1), 0.4, 0.2))]. *)
Definition p_gripe (pg : nat) : Qc :=
  if (pg =? 0)%nat then dec 0.6
  else if (pg =? 1)%nat then dec 0.4
  else dec 0.2.

Definition p_neumonia (pg : nat) : Qc :=
  if (pg =? 0)%nat then dec 0.7
  else if (pg =? 1)%nat then dec 0.5
  else dec 0.3.

Definition p_fiebre (gripe neumonia : nat) : Qc :=
  if (gripe =? 1)%nat && (neumonia =? 1)%nat then dec 0.9
  else if (gripe =? 1)%nat && (neumonia =? 0)%nat then dec 0.8
  else if (gripe =? 0)%nat && (neumonia =? 1)%nat then dec 0.7
  else dec 0.1.

Definition p_tos (neumonia : nat) : Qc :=
  if (neumonia =? 1)%nat then dec 0.8 else dec 0.3.

Definition p_dolor (gripe : nat) : Qc :=
  if (gripe =? 1)%nat then dec 0.7 else dec 0.2.

(** The coding of labels by integers used by [diagnosticar]. *)
Definition valores_posibles : list (string * list string) :=
  [("PG", ["Alta"; "Media"; "Baja"]);
   ("Gripe", ["No"; "Sí"]);
   ("Neumonia", ["No"; "Sí"]);
   ("Fiebre", ["No"; "Sí"]);
   ("Tos", ["No"; "Sí"]);
   ("Dolor_cabeza", ["No"; "Sí"])].

(** Probability mass of [pm.Categorical] and [pm.Bernoulli]. *)
Definition categorical (p : list Qc) (x : nat) : Qc := nth x p 0.

Definition bernoulli (p : Qc) (x : nat) : Qc :=
  if (x =? 1)%nat then p else if (x =? 0)%nat then 1 - p else 0.
End PyMC.

(** ** Enumeration *)

(** Product of the weights of a list of factors at one assignment. *)
Definition prod_eval (card : string → nat) (fs : list Factor) (ρ : env) : Qc :=
  prodQc (map (fun f => eval card f ρ) fs).

(** The joint distribution a network encodes: the product of its CPTs. *)
Definition joint (m : BayesianNetwork) (ρ : env) : Qc :=
  prod_eval (card m) (factors m) ρ.

(** Nested sum over the states of the listed variables, outermost first. *)
Fixpoint isum (card : string → nat) (vs : list string) (F : env → Qc)
    (ρ : env) : Qc :=
  match vs with
  | [] => F ρ
  | v :: vs' => sum_over (card v) (fun s => isum card vs' F (upd ρ v s))
  end.

(** The assignment an evidence mapping forces on top of [ρ]. *)
Definition override (ev : string → option nat) (ρ : env) : env :=
  fun v => default (ρ v) (ev v).


(** ** Assignments seen through a scope *)

(** Every listed variable is given one of its states. *)
Definition bounded_on (card : string → nat) (vs : list string) (ρ : env) : Prop :=
  ∀ v, v ∈ vs → (ρ v < card v)%nat.

Definition agree_on (vs : list string) (ρ ρ' : env) : Prop :=
  ∀ v, v ∈ vs → ρ v = ρ' v.

(** [F] reads only the listed variables of an assignment. *)
Definition supported (vs : list string) (F : env → Qc) : Prop :=
  ∀ ρ ρ', agree_on vs ρ ρ' → F ρ = F ρ'.

(** The variables mentioned by a working set of factors. *)
Definition vars_of (fs : list Factor) : list string := flat_map scope fs.

(** Every factor of a working set stays inside the universe [V] and lists
    each of its variables once. *)
Definition wf_factors (V : list string) (fs : list Factor) : Prop :=
  Forall (λ f, scope f ⊆ V ∧ NoDup (scope f)) fs.

(** [F] does not distinguish assignments that agree everywhere. *)
Definition extensional (F : env → Qc) : Prop :=
  ∀ ρ ρ', (∀ v, ρ v = ρ' v) → F ρ = F ρ'.

(** The unnormalized posterior: the product of the factors under the
    evidence, summed over the eliminated variables. *)
Definition unnormalized (card : string → nat) (order : list string)
    (ev : string → option nat) (fs : list Factor) (ρ : env) : Qc :=
  isum card order (fun ρ' => prod_eval card fs (override ev ρ')) ρ.

(** The total mass of the unnormalized posterior over the axes [us]. *)
Definition total_mass (card : string → nat) (us order : list string)
    (ev : string → option nat) (fs : list Factor) : Qc :=
  isum card us (unnormalized card order ev fs) (fun _ => 0%nat).

(** The variables left in the working set after evidence reduction and
    elimination. *)
Definition remaining_var (order : list string) (ev : string → option nat)
    (fs : list Factor) (w : string) : Prop :=
  w ∈ vars_of fs ∧ ev w = None ∧ w ∉ order.

(** The elimination order lists distinct, unobserved variables of the
    working set. *)
Definition eliminable (order : list string) (ev : string → option nat)
    (fs : list Factor) : Prop :=
  NoDup order ∧ ∀ w, w ∈ order → w ∈ vars_of fs ∧ ev w = None.

(** ** Well-formed models *)

(** Every variable comes after its parents and occurs once. *)
Inductive topological (par : string → list string) : list string → Prop :=
  | topological_nil : topological par []
  | topological_snoc l v :
      topological par l → Forall (λ p, p ∈ l) (par v) → v ∉ l →
      topological par (l ++ [v]).



(** What a successful validation establishes. *)
Record valid_model (m : BayesianNetwork) : Prop := {
  valid_order : ∃ l, topological (parents m) l ∧ ∀ v, v ∈ l ↔ v ∈ nodes m;
  valid_cpd : ∀ v, v ∈ nodes m → is_Some (cpd_of m v);
  valid_unique : NoDup (map variable (cpds m));
  valid_scope : ∀ c, c ∈ cpds m → scope_matches m c;
  valid_normalized : ∀ c, c ∈ cpds m → locally_normalized c
}.

(** ** Posteriors compared *)

(** Two outcomes of a query carry the same posterior: the same error, or
    factors over the same variables with the same weight at every
    assignment (and the same table when the axes are in the same order). *)
Definition same_posterior (m : BayesianNetwork) (r1 r2 : result Factor) : Prop :=
  match r1, r2 with
  | OK f1, OK f2 =>
      scope f1 ≡ₚ scope f2
      ∧ (scope f1 = scope f2 → f1 = f2)
      ∧ ∀ ρ, bounded_on (card m) (nodes m) ρ →
             eval (card m) f1 ρ = eval (card m) f2 ρ
  | Raise e1, Raise e2 => e1 = e2
  | _, _ => False
  end.

(** The probability of the evidence: the joint under the evidence summed
    over every unobserved variable. *)
Definition evidence_mass (m : BayesianNetwork) (evidence : gmap string string) : Qc :=
  isum (card m) (filter (λ v, evidence !! v = None) (nodes m))
       (fun ρ => joint m (override (evidence_index m evidence) ρ))
       (fun _ => 0%nat).

(** ** A network with impossible evidence *)



(** ** The three scripts side by side *)

(** One joint state of the six variables, by state label. *)
Record Caso := mkCaso {
  c_pg : string;
  c_gripe : string;
  c_neumonia : string;
  c_fiebre : string;
  c_tos : string;
  c_dolor : string
}.

Definition si_no : list string := ["Sí"; "No"].

(** All 96 joint states. *)
Definition casos : list Caso :=
  p ← ["Alta"; "Media"; "Baja"]; g ← si_no; n ← si_no;
  f ← si_no; t ← si_no; d ← si_no; [mkCaso p g n f t d].

Definition etiqueta (c : Caso) (v : string) : string :=
  if decide (v = "PG") then c_pg c
  else if decide (v = "Gripe") then c_gripe c
  else if decide (v = "Neumonia") then c_neumonia c
  else if decide (v = "Fiebre") then c_fiebre c
  else if decide (v = "Tos") then c_tos c
  else c_dolor c.

(** The joint probability the pgmpy network gives to a joint state. *)
Definition joint_pgmpy (c : Caso) : Qc :=
  joint modelo (fun v => default 0%nat (index_of (etiqueta c v) (states modelo v))).

(** The joint probability the pomegranate tables give to a joint state. *)
Definition joint_pomegranate (c : Caso) : Qc :=
  default 0 (assoc (c_pg c) Pomegranate.pg)
  * Pomegranate.fila [c_pg c; c_gripe c] Pomegranate.gripe
  * Pomegranate.fila [c_pg c; c_neumonia c] Pomegranate.neumonia
  * Pomegranate.fila [c_gripe c; c_neumonia c; c_fiebre c] Pomegranate.fiebre
  * Pomegranate.fila [c_neumonia c; c_tos c] Pomegranate.tos
  * Pomegranate.fila [c_gripe c; c_dolor c] Pomegranate.dolor_cabeza.

(** The joint probability the PyMC model gives to a joint state. *)
Definition joint_pymc (c : Caso) : Qc :=
  let codigo v :=
    default 0%nat (index_of (etiqueta c v)
                            (default [] (assoc v PyMC.valores_posibles))) in
  PyMC.categorical PyMC.pg_probs (codigo "PG")
  * PyMC.bernoulli (PyMC.p_gripe (codigo "PG")) (codigo "Gripe")
  * PyMC.bernoulli (PyMC.p_neumonia (codigo "PG")) (codigo "Neumonia")
  * PyMC.bernoulli (PyMC.p_fiebre (codigo "Gripe") (codigo "Neumonia"))
                   (codigo "Fiebre")
  * PyMC.bernoulli (PyMC.p_tos (codigo "Neumonia")) (codigo "Tos")
  * PyMC.bernoulli (PyMC.p_dolor (codigo "Gripe")) (codigo "Dolor_cabeza").

(** Brute-force posterior: the mass of the joint states satisfying both
    the hypothesis and the condition, over the mass of the condition. *)
Definition masa (J : Caso → Qc) (P : Caso → bool) : Qc :=
  sumQc (map J (filter (λ c, P c = true) casos)).

Definition posterior (J : Caso → Qc) (hyp cond : Caso → bool) : Qc :=
  masa J (fun c => hyp c && cond c) / masa J cond.

(** Caso 1 of the scripts: Fiebre = Sí, Tos = Sí, Dolor_cabeza = No. *)
Definition sintomas_caso1 : list (string * string) :=
  [("Fiebre", "Sí"); ("Tos", "Sí"); ("Dolor_cabeza", "No")].

Definition evidencia_caso1 : gmap string string :=
  {[ "Fiebre" := "Sí"; "Tos" := "Sí"; "Dolor_cabeza" := "No" ]}.

Definition es_caso1 (c : Caso) : bool :=
  bool_decide (c_fiebre c = "Sí") && bool_decide (c_tos c = "Sí")
  && bool_decide (c_dolor c = "No").

Definition con_gripe (c : Caso) : bool := bool_decide (c_gripe c = "Sí").

(** An evidence mapping over the three symptoms with yes/no values. *)
Definition evidencia_de_sintomas (evidence : gmap string string) : Prop :=
  map_Forall (λ k label, k ∈ ["Fiebre"; "Tos"; "Dolor_cabeza"] ∧ label ∈ si_no)
             evidence.

(** The evidence mapping for optional yes/no answers on the three
    symptoms. *)
Definition respuesta (b : bool) : string := if b then "Sí" else "No".

Definition anotar (k : string) (r : option bool) (e : gmap string string)
  : gmap string string :=
  match r with
  | Some b => <[k := respuesta b]> e
  | None => e
  end.

Definition evidencia_sintomas (f t d : option bool) : gmap string string :=
  anotar "Fiebre" f (anotar "Tos" t (anotar "Dolor_cabeza" d ∅)).

(** The symptom names the pomegranate [diagnosticar] forwards. *)
Definition sintomas_reconocidos : list string := ["Fiebre"; "Tos"; "Dolor_cabeza"].

(** * The console code of the scripts *)

(** ** Dictionaries in insertion order *)

(** [d[k] = v] on a dictionary given by its items: an existing key keeps
    its place, a new key goes last. *)
Definition dict_set {V} (k : string) (v : V) (d : list (string * V))
  : list (string * V) :=
  if decide (k ∈ d.*1)
  then map (fun kv => if decide (kv.1 = k) then (k, v) else kv) d
  else d ++ [(k, v)].

(** [d.pop(k, None)]: the key is dropped if present, nothing is raised. *)
Definition dict_pop {V} (k : string) (d : list (string * V)) : list (string * V) :=
  filter (λ kv, kv.1 ≠ k) d.

(** ** The pgmpy script: the returned dictionary, in insertion order *)

Section ConsultaOrdenada.
(** [infer.query], as a function of [variables] and [evidence]. *)
Variable infer_query : list string → gmap string string → result Factor.

(** One iteration of the loop over [enfermedades], on the items of
    [diagnostico]. *)
Definition consultar_items (evidencias : gmap string string)
    (diagnostico : list (string * list Qc)) (enf : string)
  : result (list (string * list Qc)) :=
  let* resultado := infer_query [enf] evidencias in
  OK (dict_set enf (weights resultado) diagnostico).
End ConsultaOrdenada.

Section DiagnosticoOrdenado.
(** [VariableElimination(modelo)]: what building the engine gives, an
    exception or the engine's [query]. *)
Variable motor : result (list string → gmap string string → result Factor).

(** The body of the [try] block of [diagnosticar_pgmpy], with
    [diagnostico] as the list of its items, the order in which
    [mostrar_diagnostico_pgmpy] iterates over it. *)
Definition diagnosticar_items_cuerpo (sintomas : list (string * string))
  : result (list (string * list Qc)) :=
  let* st := preparar sintomas in
  let* infer_query := motor in
  foldM (consultar_items infer_query st.1) [] st.2.

(** [except Exception]: the error is printed and [None] is returned. *)
Definition diagnosticar_items (sintomas : list (string * string))
  : result (option (list (string * list Qc))) :=
  match diagnosticar_items_cuerpo sintomas with
  | OK diagnostico => OK (Some diagnostico)
  | Raise _ => OK None
  end.
End DiagnosticoOrdenado.

(** ** Printing *)

Module Consola.
(** The exceptions the display and input code can raise. *)
Inductive Excepcion :=
  | KeyError (k : string)
  | AttributeError.

(** What a call leaves behind: the lines printed, and the exception that
    ended it, if any. *)
Definition Salida : Type := list string * option Excepcion.

Definition nl : string := String (Ascii.ascii_of_nat 10) EmptyString.

Definition cabecera : string := nl +:+ "=== RESULTADOS DEL DIAGNÓSTICO ===".

Section Formato.
(** [f"{valor:.3f}"], the formatting of a number with three decimals. *)
Variable fmt3 : Qc → string.

(** The inner loop of [mostrar_diagnostico_pgmpy]:
    [for estado, valor in zip(estados, probs)]. *)
Definition lineas_estados (estados : list string) (probs : list Qc) : list string :=
  map (fun ev => "  P(" +:+ ev.1 +:+ ") = " +:+ fmt3 ev.2) (zip estados probs).

(** The outer loop of [mostrar_diagnostico_pgmpy]: the name is printed,
    then [estados_posibles[enfermedad]] is looked up. *)
Fixpoint mostrar_items (items : list (string * list Qc))
    (estados_posibles : list (string * list string)) : Salida :=
  match items with
  | [] => ([], None)
  | (enfermedad, probs) :: resto =>
      match assoc enfermedad estados_posibles with
      | None => ([nl +:+ enfermedad +:+ ":"], Some (KeyError enfermedad))
      | Some estados =>
          let s := mostrar_items resto estados_posibles in
          ((nl +:+ enfermedad +:+ ":") :: lineas_estados estados probs ++ s.1, s.2)
      end
  end.

(** [mostrar_diagnostico_pgmpy(diagnostico, estados_posibles)];
    [diagnostico] is [None] or a dictionary. *)
Definition mostrar_diagnostico_pgmpy (diagnostico : option (list (string * list Qc)))
    (estados_posibles : list (string * list string)) : Salida :=
  match diagnostico with
  | None => ([cabecera], Some AttributeError)
  | Some items =>
      let s := mostrar_items items estados_posibles in (cabecera :: s.1, s.2)
  end.

(** The inner loop of the pomegranate [mostrar_diagnostico]:
    [for estado, valor in prob.items()]. *)
Definition lineas_prob (prob : list (string * Qc)) : list string :=
  map (fun ev => "  P(" +:+ ev.1 +:+ ") = " +:+ fmt3 ev.2) prob.

(** The pomegranate [mostrar_diagnostico(diagnostico)]. *)
Definition mostrar_diagnostico
    (diagnostico : option (list (string * list (string * Qc)))) : Salida :=
  match diagnostico with
  | None => ([cabecera], Some AttributeError)
  | Some items =>
      (cabecera :: flat_map (fun ep => (nl +:+ ep.1 +:+ ":") :: lineas_prob ep.2) items,
       None)
  end.
End Formato.

(** [estados_posibles] of [main] in the pgmpy script, for Caso 1 and for
    the interactive mode. *)
Definition estados_posibles : list (string * list string) :=
  [("PG", ["Alta"; "Media"; "Baja"]);
   ("Gripe", ["Sí"; "No"]);
   ("Neumonia", ["Sí"; "No"])].

(** The loop of the interactive mode (pgmpy and pomegranate scripts):
    [for sintoma in ['Fiebre', 'Tos', 'Dolor_cabeza']], where
    [limpiar] is [.strip().capitalize()] and [respuestas] gives what is
    typed at each prompt. *)
Definition anotar_respuesta (limpiar : string → string)
    (respuestas : string → string) (sintomas : list (string * string))
    (sintoma : string) : list (string * string) :=
  let valor := limpiar (respuestas sintoma) in
  if decide (valor ∈ ["Sí"; "No"]) then dict_set sintoma valor sintomas
  else sintomas.

Definition leer_sintomas (limpiar : string → string)
    (respuestas : string → string) : list (string * string) :=
  foldl (anotar_respuesta limpiar respuestas) [] ["Fiebre"; "Tos"; "Dolor_cabeza"].

(** The end of [main] in the pgmpy script ([if sintomas: ... else: ...]):
    with an empty [sintomas] only the notice is printed; otherwise
    [diagnosticar_pgmpy] is called, whose [except] clause prints the
    message [str_e e] of a caught exception, and then
    [mostrar_diagnostico_pgmpy] on what it returned. *)
Definition diagnosticar_y_mostrar (fmt3 : Qc → string)
    (str_e : ErrorKind → string)
    (motor : result (list string → gmap string string → result Factor))
    (sintomas : list (string * string)) : Salida :=
  if decide (sintomas = []) then (["No se ingresaron síntomas válidos"], None)
  else
    match diagnosticar_items_cuerpo motor sintomas with
    | OK diagnostico =>
        mostrar_diagnostico_pgmpy fmt3 (Some diagnostico) estados_posibles
    | Raise e =>
        let s := mostrar_diagnostico_pgmpy fmt3 None estados_posibles in
        (("Error en diagnóstico: " +:+ str_e e) :: s.1, s.2)
    end.
End Consola.

(** ** The PyMC script: diagnosis *)

(** The number [n] as a rational. *)
Definition Qc_of_nat (n : nat) : Qc := Qc_of_Z (Z.of_nat n).

(** Lower-casing of the letters A to Z, the part of [str.lower] that the
    labels of the scripts need. *)
Definition minuscula (c : Ascii.ascii) : Ascii.ascii :=
  let n := Ascii.nat_of_ascii c in
  if (65 <=? n)%nat && (n <=? 90)%nat then Ascii.ascii_of_nat (n + 32) else c.

Fixpoint minusculas (s : string) : string :=
  match s with
  | EmptyString => EmptyString
  | String c s' => String (minuscula c) (minusculas s')
  end.

Module Muestreo.
(** What [crear_modelo_bayesiano] takes from its argument: the
    [observed=] value of the three symptom nodes. *)
Record Modelo := mkModelo {
  observed_fiebre : option nat;
  observed_tos : option nat;
  observed_dolor : option nat
}.

(** [sintomas_observados.get(nombre) if sintomas_observados and nombre in
    sintomas_observados else None]; the argument defaults to [None]. *)
Definition observado (sintomas_observados : option (list (string * nat)))
    (nombre : string) : option nat :=
  match sintomas_observados with
  | None => None
  | Some d =>
      if bool_decide (d ≠ []) && bool_decide (nombre ∈ d.*1)
      then assoc nombre d else None
  end.

Definition crear_modelo_bayesiano
    (sintomas_observados : option (list (string * nat))) : Modelo :=
  mkModelo (observado sintomas_observados "Fiebre")
           (observado sintomas_observados "Tos")
           (observado sintomas_observados "Dolor_cabeza").

(** [trace.posterior]: the flattened samples of each variable in it. *)
Definition Trace : Type := list (string * list nat).

(** [np.mean(muestras == idx)]; [None] is the NaN of an empty sample. *)
Definition frecuencia (muestras : list nat) (idx : nat) : option Qc :=
  if decide (muestras = []) then None
  else Some (Qc_of_nat (length (filter (λ m, m = idx) muestras))
             / Qc_of_nat (length muestras)).

(** The loop [for idx, estado in enumerate(estados)]. *)
Definition probabilidades (muestras : list nat) (estados : list string)
  : list (string * option Qc) :=
  foldl (fun probs ie => dict_set ie.2 (frecuencia muestras ie.1) probs) []
        (zip (seq 0 (length estados)) estados).

(** The loop [for enf in valores_posibles]; [None] when
    [trace.posterior[enf]] raises. *)
Fixpoint resumir (trace : Trace) (valores_posibles : list (string * list string))
    (resultados : list (string * list (string * option Qc)))
  : option (list (string * list (string * option Qc))) :=
  match valores_posibles with
  | [] => Some resultados
  | (enf, estados) :: resto =>
      match assoc enf trace with
      | None => None
      | Some muestras =>
          resumir trace resto
            (dict_set enf (probabilidades muestras estados) resultados)
      end
  end.

Section Diagnosticar.
(** [str.lower] and [str.strip], builtins. *)
Variable lower : string → string.
Variable strip : string → string.
(** [pm.sample] on a model; [None] when it raises. *)
Variable sample : Modelo → option Trace.

Definition afirmativa (v : string) : bool :=
  bool_decide (lower v ∈ ["sí"; "si"; "s"]).

Definition negativa (v : string) : bool :=
  bool_decide (lower v ∈ ["no"; "n"]).

(** The number an answer stands for, if it is one of the accepted
    forms (used to state what the loop below computes). *)
Definition codigo (v : string) : option nat :=
  if afirmativa v then Some 1%nat
  else if negativa v then Some 0%nat
  else None.

(** One iteration of the loop over [sintomas.items()]; the state is the
    pair of [sintomas_numericos] and [valores_posibles]. *)
Definition convertir
    (st : list (string * nat) * list (string * list string))
    (item : string * string)
  : list (string * nat) * list (string * list string) :=
  if afirmativa item.2
  then (dict_set item.1 1%nat st.1, dict_pop item.1 st.2)
  else if negativa item.2
  then (dict_set item.1 0%nat st.1, dict_pop item.1 st.2)
  else st.

Definition preparar (sintomas : list (string * string))
  : list (string * nat) * list (string * list string) :=
  foldl convertir ([], PyMC.valores_posibles) sintomas.

(** [diagnosticar(sintomas)]: the pair [(resultados, trace)], or [None]
    for the [(None, None)] of the [except] clause. *)
Definition diagnosticar (sintomas : list (string * string))
  : option (list (string * list (string * option Qc)) * Trace) :=
  let st := preparar sintomas in
  let modelo := crear_modelo_bayesiano (Some st.1) in
  match sample modelo with
  | None => None
  | Some trace =>
      match resumir trace st.2 [] with
      | None => None
      | Some resultados => Some (resultados, trace)
      end
  end.

(** The validation loop of the interactive mode for one symptom:
    [entradas] are the lines typed from here on; the result is the value
    stored in [sintomas] and the lines left, or [None] when the input
    ends before a valid answer. *)
Fixpoint pedir (entradas : list string) : option (string * list string) :=
  match entradas with
  | [] => None
  | entrada :: resto =>
      let valor := strip entrada in
      if bool_decide (lower valor ∈ ["sí"; "si"; "s"; "n"; "no"])
      then Some (if bool_decide (lower valor ∈ ["sí"; "si"; "s"])
                 then "Sí" else "No", resto)
      else pedir resto
  end.

(** [for sintoma in ['Fiebre', 'Tos', 'Dolor_cabeza']] around it. *)
Fixpoint pedir_todos (nombres : list string) (sintomas : list (string * string))
    (entradas : list string) : option (list (string * string) * list string) :=
  match nombres with
  | [] => Some (sintomas, entradas)
  | sintoma :: nombres' =>
      match pedir entradas with
      | None => None
      | Some (valor, resto) =>
          pedir_todos nombres' (dict_set sintoma valor sintomas) resto
      end
  end.

Definition leer_sintomas (entradas : list string)
  : option (list (string * string) * list string) :=
  pedir_todos ["Fiebre"; "Tos"; "Dolor_cabeza"] [] entradas.
End Diagnosticar.
End Muestreo.

(** * Properties *)

(** ** Sums and products of rationals *)

Lemma Qc_eqb_true (x y : Qc) : Qc_eqb x y = true ↔ x = y.
Proof.
  unfold Qc_eqb. rewrite Qeq_bool_iff. split.
  - apply Qc_is_canon.
  - by intros ->.
Qed.

Lemma sumQc_app (l1 l2 : list Qc) : sumQc (l1 ++ l2) = sumQc l1 + sumQc l2.
Proof.
  induction l1 as [|x l1 IH]; simpl.
  - by rewrite Qcplus_0_l.
  - rewrite IH. ring.
Qed.

Lemma prodQc_app (l1 l2 : list Qc) : prodQc (l1 ++ l2) = prodQc l1 * prodQc l2.
Proof.
  induction l1 as [|x l1 IH]; simpl.
  - by rewrite Qcmult_1_l.
  - rewrite IH. ring.
Qed.


Lemma sumQc_map_ext {A} (F G : A → Qc) (l : list A) :
  (∀ a, a ∈ l → F a = G a) → sumQc (map F l) = sumQc (map G l).
Proof.
  induction l as [|a l IH]; intros H; simpl; [done|].
  rewrite H by left. rewrite IH; [done|]. intros b Hb. apply H. by right.
Qed.

Lemma sumQc_map_mul_l {A} (c : Qc) (F : A → Qc) (l : list A) :
  sumQc (map (fun a => c * F a) l) = c * sumQc (map F l).
Proof.
  induction l as [|a l IH]; simpl; [ring|]. rewrite IH. ring.
Qed.

Lemma sumQc_map_plus {A} (F G : A → Qc) (l : list A) :
  sumQc (map (fun a => F a + G a) l) = sumQc (map F l) + sumQc (map G l).
Proof.
  induction l as [|a l IH]; simpl; [ring|]. rewrite IH. ring.
Qed.

Lemma sumQc_map_zero {A} (l : list A) : sumQc (map (fun _ => 0) l) = 0.
Proof. induction l as [|a l IH]; simpl; [done|]. rewrite IH. ring. Qed.

Lemma sumQc_map_swap {A B} (F : A → B → Qc) (la : list A) (lb : list B) :
  sumQc (map (fun a => sumQc (map (fun b => F a b) lb)) la)
  = sumQc (map (fun b => sumQc (map (fun a => F a b) la)) lb).
Proof.
  induction la as [|a la IH]; simpl.
  - by rewrite sumQc_map_zero.
  - rewrite IH. by rewrite <- sumQc_map_plus.
Qed.


Lemma sumQc_map_flat_map {A B} (F : B → Qc) (g : A → list B) (l : list A) :
  sumQc (map F (flat_map g l)) = sumQc (map (fun a => sumQc (map F (g a))) l).
Proof.
  induction l as [|a l IH]; simpl; [done|]. by rewrite map_app, sumQc_app, IH.
Qed.

Lemma sum_over_ext (n : nat) (F G : nat → Qc) :
  (∀ s, (s < n)%nat → F s = G s) → sum_over n F = sum_over n G.
Proof.
  intros H. apply sumQc_map_ext. intros s Hs. apply H.
  apply elem_of_seq in Hs. lia.
Qed.

Lemma sum_over_mul_l (n : nat) (c : Qc) (F : nat → Qc) :
  sum_over n (fun s => c * F s) = c * sum_over n F.
Proof. apply sumQc_map_mul_l. Qed.

Lemma sum_over_swap (n k : nat) (F : nat → nat → Qc) :
  sum_over n (fun s => sum_over k (fun t => F s t))
  = sum_over k (fun t => sum_over n (fun s => F s t)).
Proof. apply sumQc_map_swap. Qed.


(** ** Filtering *)

Lemma filter_iff_in {A} (P Q : A → Prop) `{∀ x, Decision (P x)}
    `{∀ x, Decision (Q x)} (l : list A) :
  (∀ x, x ∈ l → P x ↔ Q x) → filter P l = filter Q l.
Proof.
  induction l as [|x l IH]; intros HPQ; [done|].
  rewrite !filter_cons. rewrite IH by (intros y Hy; apply HPQ; by right).
  destruct (decide (P x)) as [Hp|Hp].
  - rewrite decide_True; [done|]. apply HPQ; [by left|done].
  - rewrite decide_False; [done|]. intros Hq. apply Hp, HPQ; [by left|done].
Qed.

Lemma filter_all {A} (P : A → Prop) `{∀ x, Decision (P x)} (l : list A) :
  (∀ x, x ∈ l → P x) → filter P l = l.
Proof.
  induction l as [|x l IH]; intros HP; [done|].
  rewrite filter_cons, decide_True by (apply HP; by left).
  rewrite IH; [done|]. intros y Hy. apply HP. by right.
Qed.

(** ** Row-major indexing *)

Lemma assignments_length (cs : list nat) :
  length (assignments cs) = list_prod_nat cs.
Proof.
  induction cs as [|c cs IH]; simpl; [done|].
  generalize 0%nat. induction c as [|c IHc]; intros start; simpl; [done|].
  rewrite length_app, length_map, IHc, IH. done.
Qed.

Lemma lookup_blocks {A} (f : nat → list A) (width : nat) (c start s i : nat) :
  (∀ t, length (f t) = width) → (s < c)%nat → (i < width)%nat →
  flat_map f (seq start c) !! (s * width + i)%nat = f (start + s)%nat !! i.
Proof.
  intros Hw. revert start s. induction c as [|c IH]; intros start s Hs Hi; [lia|].
  simpl. destruct s as [|s].
  - rewrite lookup_app_l by (rewrite Hw; lia).
    by replace (start + 0)%nat with start by lia.
  - rewrite lookup_app_r by (rewrite Hw; lia).
    rewrite Hw. replace (S s * width + i - width)%nat with (s * width + i)%nat by lia.
    rewrite IH by lia. f_equal. f_equal. lia.
Qed.

Lemma flat_index_bound (cs a : list nat) :
  Forall2 lt a cs → (flat_index cs a < list_prod_nat cs)%nat.
Proof.
  intros H. induction H as [|s c a cs Hs _ IH]; simpl; [lia|].
  destruct cs as [|c' cs]; [destruct a; simpl in *; nia|]. nia.
Qed.

Lemma lookup_flat_index (cs a : list nat) :
  Forall2 lt a cs → assignments cs !! flat_index cs a = Some a.
Proof.
  intros H. induction H as [|s c a cs Hs Ha IH]; simpl; [done|].
  rewrite (lookup_blocks _ (list_prod_nat cs)).
  - simpl. rewrite list_lookup_fmap, IH. done.
  - intros t. by rewrite length_map, assignments_length.
  - done.
  - by apply flat_index_bound.
Qed.

Lemma assignments_below (cs a : list nat) :
  a ∈ assignments cs → Forall2 lt a cs.
Proof.
  revert a. induction cs as [|c cs IH]; intros a; simpl.
  - intros ->%list_elem_of_singleton. constructor.
  - rewrite list_elem_of_In, in_flat_map. intros (s & Hs & Ha).
    apply in_map_iff in Ha as (a' & <- & Ha').
    apply in_seq in Hs. constructor; [lia|]. apply IH. by apply list_elem_of_In.
Qed.

(** ** Semantics of the factor operations *)

Section FactorFacts.
Variable card : string → nat.


Lemma upd_ne (ρ : env) v s w : w ≠ v → upd ρ v s w = ρ w.
Proof. intros. unfold upd. by rewrite decide_False. Qed.

Lemma agree_on_upd vs ρ ρ' v s :
  agree_on (drop v vs) ρ ρ' → agree_on vs (upd ρ v s) (upd ρ' v s).
Proof.
  intros H w Hw. unfold upd. case_decide; [done|].
  apply H. unfold drop. by apply list_elem_of_filter.
Qed.

Lemma bounded_on_mono vs ws ρ : ws ⊆ vs → bounded_on card vs ρ → bounded_on card ws ρ.
Proof. intros Hs H v Hv. apply H, Hs, Hv. Qed.

Lemma bounded_on_upd_all vs ρ v s :
  (s < card v)%nat → bounded_on card vs ρ → bounded_on card vs (upd ρ v s).
Proof.
  intros Hs H w Hw. unfold upd. case_decide; [by subst|]. by apply H.
Qed.

Lemma eval_agree f ρ ρ' : agree_on (scope f) ρ ρ' → eval card f ρ = eval card f ρ'.
Proof.
  intros H. unfold eval. f_equal. apply map_ext_in. intros v Hv.
  apply H. by apply list_elem_of_In.
Qed.

Lemma env_of_map vs (ρ : env) : agree_on vs (env_of vs (map ρ vs)) ρ.
Proof.
  induction vs as [|v vs IH]; intros w Hw; [by apply elem_of_nil in Hw|].
  simpl. case_decide; [by subst|].
  apply IH. apply elem_of_cons in Hw as [?|?]; done.
Qed.

Lemma bounded_below vs ρ :
  bounded_on card vs ρ → Forall2 lt (map ρ vs) (cards card vs).
Proof.
  induction vs as [|v vs IH]; intros H; simpl; constructor.
  - apply H. by left.
  - apply IH. intros w Hw. apply H. by right.
Qed.

(** Reading a tabulated function back at an in-range assignment. *)
Lemma eval_tabulate vs F ρ :
  bounded_on card vs ρ → supported vs F → eval card (tabulate card vs F) ρ = F ρ.
Proof.
  intros Hb HF. unfold eval, weight_at, tabulate; simpl.
  pose proof (lookup_flat_index _ _ (bounded_below vs ρ Hb)) as Hl.
  erewrite nth_lookup_Some; [|by rewrite list_lookup_fmap, Hl].
  apply HF, env_of_map.
Qed.

Lemma elem_of_union_scope v vs ws : v ∈ union_scope vs ws ↔ v ∈ vs ∨ v ∈ ws.
Proof.
  unfold union_scope. rewrite elem_of_app, list_elem_of_filter.
  destruct (decide (v ∈ vs)) as [Hv|Hv]; [by split; auto|].
  split; [intros [?|[_ ?]]; auto|intros [?|?]; auto].
Qed.

Lemma elem_of_drop v w vs : w ∈ drop v vs ↔ w ≠ v ∧ w ∈ vs.
Proof. unfold drop. by rewrite list_elem_of_filter. Qed.

Lemma NoDup_union_scope vs ws : NoDup vs → NoDup ws → NoDup (union_scope vs ws).
Proof.
  intros Hv Hw. unfold union_scope. apply NoDup_app. split; [done|]. split.
  - intros x Hx [Hn _]%list_elem_of_filter. done.
  - by apply NoDup_filter.
Qed.

Lemma eval_product f g ρ :
  bounded_on card (union_scope (scope f) (scope g)) ρ →
  eval card (product card f g) ρ = eval card f ρ * eval card g ρ.
Proof.
  intros Hb. unfold product. rewrite eval_tabulate; [done|done|].
  intros ρ1 ρ2 H. f_equal; apply eval_agree; intros v Hv; apply H;
    apply elem_of_union_scope; auto.
Qed.

Lemma marginalize_OK v f g :
  marginalize card v f = OK g →
  v ∈ scope f ∧ scope g = drop v (scope f)
  ∧ ∀ ρ, bounded_on card (scope g) ρ →
         eval card g ρ = sum_over (card v) (fun s => eval card f (upd ρ v s)).
Proof.
  unfold marginalize. destruct (decide (v ∈ scope f)) as [Hv|]; [|done].
  intros [= <-]. split; [done|]. split; [done|]. simpl. intros ρ Hb.
  rewrite eval_tabulate; [done|done|].
  intros ρ1 ρ2 H. apply sum_over_ext. intros s _.
  by apply eval_agree, agree_on_upd.
Qed.

Lemma reduceByEvidence_OK v s f g :
  reduceByEvidence card v s f = OK g →
  v ∈ scope f ∧ (s < card v)%nat ∧ scope g = drop v (scope f)
  ∧ ∀ ρ, bounded_on card (scope g) ρ → eval card g ρ = eval card f (upd ρ v s).
Proof.
  unfold reduceByEvidence. destruct (decide (v ∈ scope f)) as [Hv|]; [|done].
  destruct (decide (s < card v)%nat) as [Hs|]; [|done].
  intros [= <-]. repeat split; try done. simpl. intros ρ Hb.
  rewrite eval_tabulate; [done|done|].
  intros ρ1 ρ2 H. by apply eval_agree, agree_on_upd.
Qed.
End FactorFacts.

(** ** One elimination step *)

Section Elimination.
Variable card : string → nat.
Variable V : list string.

Lemma elem_of_vars_of v fs : v ∈ vars_of fs ↔ ∃ f, f ∈ fs ∧ v ∈ scope f.
Proof.
  unfold vars_of. rewrite list_elem_of_In, in_flat_map.
  split; intros (f & Hf & Hv); exists f; by rewrite ?list_elem_of_In in *.
Qed.

Lemma scope_product_all v fs : v ∈ scope (product_all card fs) ↔ v ∈ vars_of fs.
Proof.
  induction fs as [|f fs IH]; simpl; [done|].
  rewrite elem_of_union_scope, IH, elem_of_app. done.
Qed.

Lemma NoDup_product_all fs : wf_factors V fs → NoDup (scope (product_all card fs)).
Proof.
  induction 1 as [|f fs [_ Hf] _ IH]; simpl; [constructor|].
  by apply NoDup_union_scope.
Qed.

Lemma vars_of_within fs : wf_factors V fs → vars_of fs ⊆ V.
Proof.
  intros H v (f & Hf & Hv)%elem_of_vars_of.
  unfold wf_factors in H. rewrite Forall_forall in H. by apply (H f Hf).
Qed.

Lemma eval_product_all fs ρ :
  wf_factors V fs → bounded_on card V ρ →
  eval card (product_all card fs) ρ = prod_eval card fs ρ.
Proof.
  intros Hwf Hb. induction Hwf as [|f fs [Hf _] Hfs IH]; [done|].
  simpl. rewrite eval_product.
  - rewrite IH. done.
  - eapply bounded_on_mono; [|done]. intros v [?|Hv%scope_product_all]%elem_of_union_scope.
    + by apply Hf.
    + by apply (vars_of_within fs).
Qed.

Lemma prod_eval_agree fs ρ ρ' :
  agree_on (vars_of fs) ρ ρ' → prod_eval card fs ρ = prod_eval card fs ρ'.
Proof.
  intros H. unfold prod_eval. f_equal. apply map_ext_in. intros f Hf.
  apply eval_agree. intros v Hv. apply H, elem_of_vars_of.
  exists f. by rewrite list_elem_of_In.
Qed.

Lemma prod_eval_split (P : Factor → Prop) `{∀ f, Decision (P f)} fs ρ :
  prod_eval card fs ρ
  = prod_eval card (filter P fs) ρ * prod_eval card (filter (λ f, ¬ P f) fs) ρ.
Proof.
  unfold prod_eval. induction fs as [|f fs IH]; simpl; [ring|].
  rewrite IH. rewrite !filter_cons. destruct (decide (P f)) as [Hp|Hp].
  - rewrite decide_False by tauto. simpl. ring.
  - rewrite decide_True by done. simpl. ring.
Qed.

Lemma prod_eval_app fs gs ρ :
  prod_eval card (fs ++ gs) ρ = prod_eval card fs ρ * prod_eval card gs ρ.
Proof. unfold prod_eval. by rewrite map_app, prodQc_app. Qed.

Lemma wf_factors_filter (P : Factor → Prop) `{∀ f, Decision (P f)} fs :
  wf_factors V fs → wf_factors V (filter P fs).
Proof. unfold wf_factors. rewrite !Forall_forall. intros Hwf f [_ Hf]%list_elem_of_filter. auto. Qed.

Lemma eliminate_OK fs v fs' :
  wf_factors V fs → eliminate card fs v = OK fs' →
  wf_factors V fs'
  ∧ v ∈ vars_of fs
  ∧ (∀ w, w ∈ vars_of fs' ↔ w ≠ v ∧ w ∈ vars_of fs)
  ∧ ∀ ρ, bounded_on card V ρ →
         prod_eval card fs' ρ
         = sum_over (card v) (fun s => prod_eval card fs (upd ρ v s)).
Proof.
  intros Hwf. unfold eliminate.
  set (rel := filter (λ f, v ∈ scope f) fs).
  set (rest := filter (λ f, v ∉ scope f) fs).
  destruct (marginalize card v (product_all card rel)) as [p|e] eqn:Hm; [|done].
  simpl. intros [= <-].
  apply marginalize_OK in Hm as (Hv & Hsc & Hev).
  assert (Hrel : wf_factors V rel) by by apply wf_factors_filter.
  assert (Hrest : wf_factors V rest) by by apply wf_factors_filter.
  assert (Hp : scope p ⊆ V).
  { rewrite Hsc. intros w [_ Hw]%elem_of_drop.
    apply scope_product_all in Hw. by apply (vars_of_within rel). }
  split; [|split; [|split]].
  - apply Forall_app. split; [done|]. constructor; [|constructor].
    split; [done|]. rewrite Hsc. apply NoDup_filter. by apply NoDup_product_all.
  - apply scope_product_all, elem_of_vars_of in Hv as (f & Hf & Hvf).
    apply elem_of_vars_of. exists f. split; [|done].
    by apply list_elem_of_filter in Hf as [_ ?].
  - intros w. rewrite !elem_of_vars_of. split.
    + intros (f & Hf & Hw). apply elem_of_app in Hf as [Hf|Hf].
      * apply list_elem_of_filter in Hf as [Hn Hf]. split; [by intros ->|]. eauto.
      * apply list_elem_of_singleton in Hf as ->. rewrite Hsc in Hw.
        apply elem_of_drop in Hw as [Hne Hw]. split; [done|].
        apply scope_product_all, elem_of_vars_of in Hw as (f & Hf & Hw).
        exists f. split; [|done]. by apply list_elem_of_filter in Hf as [_ ?].
    + intros (Hne & f & Hf & Hw). destruct (decide (v ∈ scope f)) as [Hvf|Hvf].
      * exists p. split; [apply elem_of_app; right; by apply list_elem_of_singleton|].
        rewrite Hsc. apply elem_of_drop. split; [done|].
        apply scope_product_all, elem_of_vars_of. exists f. split; [|done].
        by apply list_elem_of_filter.
      * exists f. split; [|done]. apply elem_of_app. left. by apply list_elem_of_filter.
  - intros ρ Hb. rewrite prod_eval_app. unfold prod_eval at 2. simpl.
    rewrite Hev by (eapply bounded_on_mono; done).
    rewrite Qcmult_1_r, <- sum_over_mul_l. apply sum_over_ext. intros s Hs.
    rewrite (prod_eval_split (λ f, v ∈ scope f) fs). fold rel. fold rest.
    rewrite eval_product_all; [|done|by apply bounded_on_upd_all].
    rewrite Qcmult_comm. f_equal. apply prod_eval_agree.
    intros w (f & Hf & Hw)%elem_of_vars_of.
    apply list_elem_of_filter in Hf as [Hn _]. rewrite upd_ne; [done|by intros ->].
Qed.

Lemma eliminate_succeeds fs v :
  v ∈ vars_of fs → ∃ fs', eliminate card fs v = OK fs'.
Proof.
  intros (f & Hf & Hv)%elem_of_vars_of. unfold eliminate, marginalize.
  rewrite decide_True; [by eexists|].
  apply scope_product_all, elem_of_vars_of. exists f. split; [|done].
  by apply list_elem_of_filter.
Qed.

Lemma eliminate_fails fs v :
  v ∉ vars_of fs → eliminate card fs v = Raise VariableNotInScopeError.
Proof.
  intros Hv. unfold eliminate, marginalize. rewrite decide_False; [done|].
  intros (f & Hf & Hvf)%scope_product_all%elem_of_vars_of. apply Hv, elem_of_vars_of.
  exists f. split; [|done]. by apply list_elem_of_filter in Hf as [_ ?].
Qed.
End Elimination.

(** ** Nested sums *)

Section NestedSums.
Variable card : string → nat.
Variable V : list string.

Lemma prod_eval_extensional fs : extensional (prod_eval card fs).
Proof. intros ρ ρ' H. apply prod_eval_agree. intros v _. apply H. Qed.

Lemma isum_extensional vs F : extensional F → extensional (isum card vs F).
Proof.
  intros HF. induction vs as [|v vs IH]; intros ρ ρ' H; simpl; [by apply HF|].
  apply sum_over_ext. intros s _. apply IH. intros w. unfold upd.
  case_decide; [done|apply H].
Qed.

Lemma isum_ext vs F G ρ :
  (∀ ρ', bounded_on card V ρ' → F ρ' = G ρ') →
  bounded_on card V ρ → isum card vs F ρ = isum card vs G ρ.
Proof.
  intros H. revert ρ. induction vs as [|v vs IH]; intros ρ Hb; simpl; [by apply H|].
  apply sum_over_ext. intros s Hs. apply IH. by apply bounded_on_upd_all.
Qed.

Lemma isum_app vs ws F ρ :
  isum card (vs ++ ws) F ρ = isum card vs (isum card ws F) ρ.
Proof.
  revert ρ. induction vs as [|v vs IH]; intros ρ; simpl; [done|].
  apply sum_over_ext. intros s _. apply IH.
Qed.

Lemma upd_comm (ρ : env) v w s t x :
  v ≠ w → upd (upd ρ v s) w t x = upd (upd ρ w t) v s x.
Proof. intros Hne. unfold upd. repeat case_decide; congruence. Qed.

Lemma isum_perm vs ws F ρ :
  vs ≡ₚ ws → extensional F → isum card vs F ρ = isum card ws F ρ.
Proof.
  intros Hp HF. revert ρ.
  induction Hp as [|v vs ws _ IH|v w vs|vs ws us _ IH1 _ IH2]; intros ρ; simpl.
  - done.
  - apply sum_over_ext. intros s _. apply IH.
  - destruct (decide (v = w)) as [->|Hne]; [done|].
    rewrite sum_over_swap. apply sum_over_ext. intros s _.
    apply sum_over_ext. intros t _. apply isum_extensional; [done|].
    intros x. by apply upd_comm.
  - by rewrite IH1.
Qed.

Lemma isum_upd v s vs F ρ :
  v ∉ vs → extensional F →
  isum card vs (fun ρ' => F (upd ρ' v s)) ρ = isum card vs F (upd ρ v s).
Proof.
  intros Hv HF. revert ρ. induction vs as [|w vs IH]; intros ρ; simpl; [done|].
  apply not_elem_of_cons in Hv as [Hne Hv].
  apply sum_over_ext. intros t _. rewrite IH by done.
  apply isum_extensional; [done|]. intros x. by apply upd_comm.
Qed.



(** Variables the summand does not read contribute a constant factor;
    in particular a nested sum over variables outside the support of a
    function reads none of the summed variables. *)
Lemma isum_agree vs ws F ρ ρ' :
  supported ws F → agree_on (filter (λ w, w ∉ vs) ws) ρ ρ' →
  isum card vs F ρ = isum card vs F ρ'.
Proof.
  intros HF. revert ws F HF ρ ρ'.
  induction vs as [|v vs IH]; intros ws F HF ρ ρ' H; simpl.
  - apply HF. intros w Hw. apply H. apply list_elem_of_filter. split; [|done].
    apply not_elem_of_nil.
  - apply sum_over_ext. intros s _. apply (IH ws); [done|].
    intros w [Hn Hw]%list_elem_of_filter. unfold upd. case_decide; [done|].
    apply H. apply list_elem_of_filter. split; [|done].
    apply not_elem_of_cons. done.
Qed.

(** The flat sum over all joint states of [vs] is the nested sum. *)
Lemma sum_assignments vs F :
  NoDup vs → extensional F →
  sumQc (map (fun a => F (env_of vs a)) (assignments (cards card vs)))
  = isum card vs F (fun _ => 0%nat).
Proof.
  intros Hnd. revert F. induction Hnd as [|v vs Hv Hnd IH]; intros F HF; simpl.
  - by rewrite Qcplus_0_r.
  - rewrite sumQc_map_flat_map. unfold sum_over. apply sumQc_map_ext. intros s _.
    rewrite map_map. rewrite <- isum_upd by done.
    rewrite <- (IH (fun ρ' => F (upd ρ' v s))).
    + apply sumQc_map_ext. intros a _. apply HF. intros w. simpl. unfold upd.
      done.
    + intros ρ1 ρ2 H. apply HF. intros w. unfold upd. case_decide; [done|apply H].
Qed.
End NestedSums.

(** ** Evidence reduction, elimination in sequence, normalization *)

Section Protocol.
Variable card : string → nat.
Variable V : list string.
Variable ev : string → option nat.
Hypothesis ev_valid : ∀ v s, ev v = Some s → (s < card v)%nat.

Lemma bounded_on_override vs ρ (ev' : string → option nat) :
  (∀ v s, ev' v = Some s → (s < card v)%nat) →
  bounded_on card vs ρ → bounded_on card vs (override ev' ρ).
Proof.
  intros Hev Hb v Hv. unfold override. destruct (ev' v) as [s|] eqn:E; simpl.
  - by apply Hev.
  - by apply Hb.
Qed.

Lemma reduce_loop l g :
  NoDup l → l ⊆ scope g → scope g ⊆ V → NoDup (scope g) →
  ∃ g', foldM (fun g v => if ev v is Some s then reduceByEvidence card v s g
                          else OK g) g l = OK g'
        ∧ scope g' = filter (λ w, ¬ (w ∈ l ∧ is_Some (ev w))) (scope g)
        ∧ ∀ ρ, bounded_on card V ρ →
               eval card g' ρ
               = eval card g (override (fun w => if decide (w ∈ l) then ev w
                                                 else None) ρ).
Proof.
  intros Hnd. revert g. induction Hnd as [|v l Hv Hnd IH]; intros g Hl HV Hg.
  - exists g. split; [done|]. split.
    + symmetry. apply filter_all. intros w _ [Hw _]. by apply elem_of_nil in Hw.
    + done.
  - simpl. destruct (ev v) as [s|] eqn:E.
    + destruct (reduceByEvidence card v s g) as [g1|e] eqn:Hr.
      2:{ unfold reduceByEvidence in Hr. rewrite decide_True in Hr by (apply Hl; by left).
          rewrite decide_True in Hr by by apply ev_valid. done. }
      apply reduceByEvidence_OK in Hr as (_ & Hs & Hsc & Hev).
      destruct (IH g1) as (g' & Hg' & Hsc' & Hev').
      * intros w Hw. rewrite Hsc. apply elem_of_drop. split; [by intros ->|].
        apply Hl. by right.
      * rewrite Hsc. intros w [_ Hw]%elem_of_drop. by apply HV.
      * rewrite Hsc. by apply NoDup_filter.
      * exists g'. simpl. split; [done|]. split.
        -- rewrite Hsc', Hsc. unfold drop. rewrite list_filter_filter.
           apply list_filter_iff. intros w. rewrite elem_of_cons. split.
           ++ intros [H1 H2] [[->|Hw] Hs']; [done|]. apply H1. done.
           ++ intros H. split.
              ** intros [Hw Hs']. apply H. split; [by right|done].
              ** intros ->. apply H. split; [by left|]. rewrite E. by eexists.
        -- intros ρ Hb. rewrite Hev' by done. rewrite Hev.
           ++ apply eval_agree. intros w _. unfold upd, override.
              destruct (decide (w = v)) as [->|Hne].
              ** rewrite decide_True by by left. by rewrite E.
              ** destruct (decide (w ∈ l)) as [Hw|Hw].
                 --- rewrite decide_True by by right. done.
                 --- rewrite decide_False; [done|]. intros [?|?]%elem_of_cons; done.
           ++ apply bounded_on_override.
              ** intros w t. case_decide; [apply ev_valid|done].
              ** eapply bounded_on_mono; [|done]. rewrite Hsc.
                 intros w [_ Hw]%elem_of_drop. by apply HV.
    + destruct (IH g) as (g' & Hg' & Hsc' & Hev').
      * intros w Hw. apply Hl. by right.
      * done.
      * done.
      * exists g'. split; [done|]. split.
        -- rewrite Hsc'. apply list_filter_iff. intros w. rewrite elem_of_cons. split.
           ++ intros H [[->|Hw] Hs']; [rewrite E in Hs'; by destruct Hs'|]. by apply H.
           ++ intros H [Hw Hs']. apply H. split; [by right|done].
        -- intros ρ Hb. rewrite Hev' by done. apply eval_agree. intros w _.
           unfold override. destruct (decide (w = v)) as [->|Hne].
           ** rewrite decide_False by done. rewrite decide_True by by left.
              by rewrite E.
           ** destruct (decide (w ∈ l)) as [Hw|Hw].
              --- rewrite decide_True by by right. done.
              --- rewrite decide_False; [done|]. intros [?|?]%elem_of_cons; done.
Qed.

Lemma reduce_all_OK f :
  scope f ⊆ V → NoDup (scope f) →
  ∃ g, reduce_all card ev f = OK g
       ∧ scope g = filter (λ w, ev w = None) (scope f)
       ∧ ∀ ρ, bounded_on card V ρ → eval card g ρ = eval card f (override ev ρ).
Proof.
  intros HV Hnd. destruct (reduce_loop (scope f) f Hnd) as (g & Hg & Hsc & Hev);
    [done|done|done|].
  exists g. split; [done|]. split.
  - rewrite Hsc. apply filter_iff_in. intros w Hw. split.
    + intros H. destruct (ev w) eqn:E; [|done]. exfalso. apply H. split; [done|by eexists].
    + intros E [_ Hs]. rewrite E in Hs. by destruct Hs.
  - intros ρ Hb. rewrite Hev by done. apply eval_agree. intros w Hw.
    unfold override. by rewrite decide_True.
Qed.
End Protocol.

Section Engine.
Variable card : string → nat.
Variable V : list string.
Variable ev : string → option nat.
Hypothesis ev_valid : ∀ v s, ev v = Some s → (s < card v)%nat.
Hypothesis card_pos : ∀ v, v ∈ V → (0 < card v)%nat.

Lemma mapM_reduce_OK fs :
  wf_factors V fs →
  ∃ gs, mapM (reduce_all card ev) fs = OK gs
        ∧ wf_factors V gs
        ∧ (∀ w, w ∈ vars_of gs ↔ w ∈ vars_of fs ∧ ev w = None)
        ∧ ∀ ρ, bounded_on card V ρ →
               prod_eval card gs ρ = prod_eval card fs (override ev ρ).
Proof.
  intros Hwf. induction Hwf as [|f fs [HfV Hfnd] Hfs (gs & Hgs & Hwfg & Hvars & Hev)].
  - exists []. split; [done|]. split; [constructor|]. split; [|done].
    intros w. unfold vars_of. simpl. split.
    + by intros ?%elem_of_nil.
    + by intros [?%elem_of_nil _].
  - destruct (reduce_all_OK card V ev ev_valid f HfV Hfnd) as (g & Hg & Hsc & Hevg).
    exists (g :: gs). simpl. rewrite Hg, Hgs. simpl. split; [done|]. split; [|split].
    + constructor; [|done]. rewrite Hsc. split; [|by apply NoDup_filter].
      intros w [_ Hw]%list_elem_of_filter. by apply HfV.
    + intros w. unfold vars_of in *. simpl. rewrite !elem_of_app, Hvars, Hsc.
      rewrite list_elem_of_filter. tauto.
    + intros ρ Hb. unfold prod_eval in *. simpl. by rewrite Hevg, Hev.
Qed.

Lemma foldM_eliminate_OK fs order fs' :
  wf_factors V fs → foldM (eliminate card) fs order = OK fs' →
  wf_factors V fs' ∧ NoDup order ∧ order ⊆ vars_of fs
  ∧ (∀ w, w ∈ vars_of fs' ↔ (w ∉ order) ∧ w ∈ vars_of fs)
  ∧ ∀ ρ, bounded_on card V ρ →
         prod_eval card fs' ρ = isum card (rev order) (prod_eval card fs) ρ.
Proof.
  revert fs. induction order as [|v order IH]; intros fs Hwf; simpl.
  - intros [= <-]. split; [done|]. split; [constructor|]. split.
    { by intros ? ?%elem_of_nil. }
    split; [|done]. intros w. split.
    + intros Hw. split; [apply not_elem_of_nil|done].
    + by intros [_ ?].
  - destruct (eliminate card fs v) as [fs1|e] eqn:He; [|done]. simpl. intros Hf.
    destruct (eliminate_OK card V fs v fs1 Hwf He) as (Hwf1 & Hv & Hvars1 & Hev1).
    destruct (IH fs1 Hwf1 Hf) as (Hwf' & Hnd & Hsub & Hvars' & Hev').
    split; [done|]. split; [|split; [|split]].
    + constructor; [|done]. intros Hvo. apply Hsub, Hvars1 in Hvo. by destruct Hvo.
    + intros w [->|Hw]%elem_of_cons; [done|]. by apply Hsub, Hvars1 in Hw as [_ ?].
    + intros w. rewrite Hvars', Hvars1, not_elem_of_cons. tauto.
    + intros ρ Hb. rewrite Hev' by done. rewrite isum_app. simpl.
      by apply (isum_ext card V).
Qed.

Lemma foldM_eliminate_succeeds fs order :
  wf_factors V fs → NoDup order → order ⊆ vars_of fs →
  ∃ fs', foldM (eliminate card) fs order = OK fs'.
Proof.
  intros Hwf Hnd. revert fs Hwf. induction Hnd as [|v order Hv Hnd IH]; intros fs Hwf Hsub.
  - by eexists.
  - simpl. destruct (eliminate_succeeds card fs v) as [fs1 He]; [apply Hsub; by left|].
    rewrite He. simpl.
    destruct (eliminate_OK card V fs v fs1 Hwf He) as (Hwf1 & _ & Hvars1 & _).
    apply IH; [done|]. intros w Hw. apply Hvars1. split; [by intros ->|].
    apply Hsub. by right.
Qed.

Lemma foldM_eliminate_error fs order e :
  foldM (eliminate card) fs order = Raise e → e = VariableNotInScopeError.
Proof.
  revert fs. induction order as [|v order IH]; intros fs; simpl; [done|].
  destruct (eliminate card fs v) as [fs1|e1] eqn:He; simpl; [apply IH|].
  intros [= <-]. destruct (decide (v ∈ vars_of fs)) as [Hv|Hv].
  - destruct (eliminate_succeeds card fs v Hv) as [? H]. congruence.
  - rewrite eliminate_fails in He by done. congruence.
Qed.

Lemma normalize_OK f r :
  normalize f = OK r →
  sumQc (weights f) ≠ 0 ∧ scope r = scope f
  ∧ weights r = map (fun w => w / sumQc (weights f)) (weights f).
Proof.
  unfold normalize. destruct (Qc_eqb _ 0) eqn:E; [done|]. intros [= <-].
  split; [|done]. intros Hz. apply Qc_eqb_true in Hz. congruence.
Qed.

Lemma normalize_error f e :
  normalize f = Raise e → e = DegenerateFactorError ∧ sumQc (weights f) = 0.
Proof.
  unfold normalize. destruct (Qc_eqb _ 0) eqn:E; [|done]. intros [= <-].
  split; [done|]. by apply Qc_eqb_true.
Qed.

Lemma env_of_bounded vs a :
  Forall2 lt a (cards card vs) → bounded_on card vs (env_of vs a).
Proof.
  revert a. induction vs as [|v vs IH]; intros a Ha w Hw; [by apply elem_of_nil in Hw|].
  simpl in Ha. inversion Ha as [|s c a' cs Hs Ha' E1 E2]; subst. simpl.
  case_decide; [by subst|]. apply IH; [done|].
  by apply elem_of_cons in Hw as [?|?].
Qed.

Lemma weights_product_all fs :
  wf_factors V fs →
  weights (product_all card fs)
  = map (fun a => prod_eval card fs (env_of (scope (product_all card fs)) a))
        (assignments (cards card (scope (product_all card fs)))).
Proof.
  intros Hwf. destruct fs as [|f fs]; [done|].
  set (U := scope (product_all card (f :: fs))). simpl. apply map_ext_in. intros a Ha.
  apply list_elem_of_In, assignments_below, env_of_bounded in Ha.
  apply Forall_cons in Hwf as [_ Hwf].
  unfold prod_eval. simpl. f_equal. apply (eval_product_all card U).
  - unfold wf_factors in *. rewrite Forall_forall in *. intros g Hg. split; [|by apply Hwf].
    intros w Hw. apply elem_of_union_scope. right. apply scope_product_all, elem_of_vars_of.
    eauto.
  - done.
Qed.
Lemma env_of_bounded_V vs a :
  Forall2 lt a (cards card vs) → bounded_on card V (env_of vs a).
Proof.
  revert a. induction vs as [|v vs IH]; intros a Ha w Hw; simpl.
  - by apply card_pos.
  - simpl in Ha. inversion Ha as [|s c a' cs Hs Ha' E1 E2]; subst.
    case_decide; [by subst|]. by apply IH.
Qed.

Lemma unnormalized_extensional order fs : extensional (unnormalized card order ev fs).
Proof.
  apply isum_extensional. intros ρ ρ' H. apply prod_eval_extensional.
  intros v. unfold override. by rewrite H.
Qed.

Lemma unnormalized_perm o1 o2 fs ρ :
  o1 ≡ₚ o2 → unnormalized card o1 ev fs ρ = unnormalized card o2 ev fs ρ.
Proof.
  intros Hp. apply isum_perm; [done|]. intros ρ1 ρ2 H. apply prod_eval_extensional.
  intros v. unfold override. by rewrite H.
Qed.

Lemma total_mass_perm u1 u2 o1 o2 fs :
  u1 ≡ₚ u2 → o1 ≡ₚ o2 → total_mass card u1 o1 ev fs = total_mass card u2 o2 ev fs.
Proof.
  intros Hu Ho. unfold total_mass.
  rewrite (isum_perm card u1 u2) by (done || apply unnormalized_extensional).
  apply (isum_ext card []).
  - intros ρ _. by apply unnormalized_perm.
  - by intros v ?%elem_of_nil.
Qed.

(** What the working set denotes after the reduction and elimination
    steps. *)
Lemma elimination_OK order fs gs fs' :
  wf_factors V fs →
  mapM (reduce_all card ev) fs = OK gs →
  foldM (eliminate card) gs order = OK fs' →
  wf_factors V fs'
  ∧ eliminable order ev fs
  ∧ (∀ w, w ∈ vars_of fs' ↔ remaining_var order ev fs w)
  ∧ ∀ ρ, bounded_on card V ρ → prod_eval card fs' ρ = unnormalized card order ev fs ρ.
Proof.
  intros Hwf Hgs Hfs'.
  destruct (mapM_reduce_OK fs Hwf) as (gs' & Hgs' & Hwfg & Hvars & Hev).
  rewrite Hgs in Hgs'. injection Hgs' as <-.
  destruct (foldM_eliminate_OK gs order fs' Hwfg Hfs') as (Hwf' & Hnd & Hsub & Hvars' & Hev').
  split; [done|]. split; [|split].
  - split; [done|]. intros w Hw. by apply Hvars, Hsub.
  - intros w. rewrite Hvars', Hvars. unfold remaining_var. tauto.
  - intros ρ Hb. rewrite Hev' by done. unfold unnormalized.
    rewrite (isum_perm card (rev order) order);
      [|symmetry; apply Permutation_rev|apply prod_eval_extensional].
    by apply (isum_ext card V).
Qed.

Lemma run_elimination_OK order fs r :
  wf_factors V fs → run_elimination card order ev fs = OK r →
  eliminable order ev fs
  ∧ NoDup (scope r)
  ∧ (∀ w, w ∈ scope r ↔ remaining_var order ev fs w)
  ∧ total_mass card (scope r) order ev fs ≠ 0
  ∧ weights r
    = map (fun a => unnormalized card order ev fs (env_of (scope r) a)
                    / total_mass card (scope r) order ev fs)
          (assignments (cards card (scope r))).
Proof.
  intros Hwf. unfold run_elimination.
  destruct (mapM (reduce_all card ev) fs) as [gs|] eqn:Hgs; [|done]. simpl.
  destruct (foldM (eliminate card) gs order) as [fs'|] eqn:Hfs'; [|done]. simpl.
  intros Hn. destruct (elimination_OK order fs gs fs' Hwf Hgs Hfs') as (Hwf' & Hel & Hvars & Hev).
  apply normalize_OK in Hn as (Hz & Hsc & Hw).
  assert (Hnd : NoDup (scope r)) by (rewrite Hsc; by eapply NoDup_product_all).
  assert (Hws : weights (product_all card fs')
                = map (fun a => unnormalized card order ev fs (env_of (scope r) a))
                      (assignments (cards card (scope r)))).
  { rewrite (weights_product_all fs' Hwf'), Hsc. apply map_ext_in. intros a Ha.
    apply Hev, env_of_bounded_V. by apply assignments_below, list_elem_of_In. }
  assert (HZ : sumQc (weights (product_all card fs'))
               = total_mass card (scope r) order ev fs).
  { rewrite Hws. unfold total_mass. apply (sum_assignments card); [done|].
    apply unnormalized_extensional. }
  split; [done|]. split; [done|]. split; [|split].
  - intros w. rewrite Hsc, scope_product_all. apply Hvars.
  - by rewrite <- HZ.
  - rewrite Hw, HZ, Hws, map_map. done.
Qed.

Lemma run_elimination_Raise order fs e :
  wf_factors V fs → run_elimination card order ev fs = Raise e →
  (e = VariableNotInScopeError ∧ ¬ eliminable order ev fs)
  ∨ (e = DegenerateFactorError ∧ eliminable order ev fs
     ∧ ∃ us, NoDup us ∧ (∀ w, w ∈ us ↔ remaining_var order ev fs w)
             ∧ total_mass card us order ev fs = 0).
Proof.
  intros Hwf. unfold run_elimination.
  destruct (mapM_reduce_OK fs Hwf) as (gs & Hgs & Hwfg & Hvars & Hev).
  rewrite Hgs. simpl.
  destruct (foldM (eliminate card) gs order) as [fs'|e1] eqn:Hfs'; simpl.
  - intros Hn. right.
    destruct (elimination_OK order fs gs fs' Hwf Hgs Hfs') as (Hwf' & Hel & Hvars' & Hev').
    apply normalize_error in Hn as [-> Hz]. split; [done|]. split; [done|].
    exists (scope (product_all card fs')). split; [by eapply NoDup_product_all|].
    split; [intros w; rewrite scope_product_all; apply Hvars'|].
    rewrite <- Hz, (weights_product_all fs' Hwf'). unfold total_mass.
    rewrite <- (sum_assignments card) by (by eapply NoDup_product_all
                                          || apply unnormalized_extensional).
    apply sumQc_map_ext. intros a Ha. symmetry.
    apply Hev', env_of_bounded_V. by apply assignments_below.
  - intros [= <-]. left. split; [by eapply foldM_eliminate_error|].
    intros [Hnd Hsub].
    destruct (foldM_eliminate_succeeds gs order Hwfg Hnd) as [fs' H].
    + intros w Hw. apply Hvars. by apply Hsub.
    + congruence.
Qed.
Lemma eliminable_perm o1 o2 fs :
  o1 ≡ₚ o2 → eliminable o1 ev fs → eliminable o2 ev fs.
Proof.
  intros Hp [Hnd Hsub]. split; [by rewrite <- Hp|].
  intros w Hw. apply Hsub. by rewrite Hp.
Qed.

Lemma remaining_var_perm o1 o2 fs w :
  o1 ≡ₚ o2 → remaining_var o1 ev fs w → remaining_var o2 ev fs w.
Proof. intros Hp (H1 & H2 & H3). repeat split; try done. by rewrite <- Hp. Qed.


Lemma unnormalized_supported order fs us :
  (∀ w, remaining_var order ev fs w → w ∈ us) →
  supported us (unnormalized card order ev fs).
Proof.
  intros Hus ρ ρ' H. unfold unnormalized.
  apply (isum_agree card order (filter (λ w, ev w = None) (vars_of fs))).
  - intros ρ1 ρ2 H12. apply prod_eval_agree. intros w Hw. unfold override.
    destruct (ev w) eqn:E; [done|]. simpl. apply H12. by apply list_elem_of_filter.
  - intros w [Hn [He Hw]%list_elem_of_filter]%list_elem_of_filter.
    apply H, Hus. done.
Qed.

Lemma eval_run_elimination order fs r ρ :
  wf_factors V fs → run_elimination card order ev fs = OK r →
  bounded_on card V ρ →
  eval card r ρ
  = unnormalized card order ev fs ρ / total_mass card (scope r) order ev fs.
Proof.
  intros Hwf Hr Hb.
  destruct (run_elimination_OK order fs r Hwf Hr) as ([_ Hsub] & Hnd & Hsc & Hz & Hw).
  assert (Hr' : r = tabulate card (scope r)
                  (fun ρ' => unnormalized card order ev fs ρ'
                             / total_mass card (scope r) order ev fs)).
  { destruct r as [sc ws]. simpl in *. unfold tabulate. by rewrite Hw. }
  rewrite Hr' at 1. apply eval_tabulate.
  - intros w Hw'. apply Hb. apply Hsc in Hw' as (Hw' & _).
    by apply (vars_of_within V fs).
  - intros ρ1 ρ2 H. f_equal. apply (unnormalized_supported order fs (scope r)); [|done].
    intros w. apply Hsc.
Qed.

(** The elimination order changes neither the outcome nor the posterior. *)
Lemma run_elimination_perm o1 o2 fs :
  wf_factors V fs → o1 ≡ₚ o2 →
  match run_elimination card o1 ev fs, run_elimination card o2 ev fs with
  | OK r1, OK r2 =>
      scope r1 ≡ₚ scope r2
      ∧ (scope r1 = scope r2 → r1 = r2)
      ∧ ∀ ρ, bounded_on card V ρ → eval card r1 ρ = eval card r2 ρ
  | Raise e1, Raise e2 => e1 = e2
  | _, _ => False
  end.
Proof.
  intros Hwf Hp.
  destruct (run_elimination card o1 ev fs) as [r1|e1] eqn:H1;
    destruct (run_elimination card o2 ev fs) as [r2|e2] eqn:H2.
  - destruct (run_elimination_OK o1 fs r1 Hwf H1) as (_ & Hnd1 & Hsc1 & Hz1 & Hw1).
    destruct (run_elimination_OK o2 fs r2 Hwf H2) as (_ & Hnd2 & Hsc2 & Hz2 & Hw2).
    assert (Hsc : scope r1 ≡ₚ scope r2).
    { apply NoDup_Permutation; [done|done|]. intros w. rewrite Hsc1, Hsc2.
      split; apply remaining_var_perm; done. }
    split; [done|]. split.
    + intros Heq. destruct r1 as [s1 w1], r2 as [s2 w2]. simpl in *. subst s2.
      f_equal. rewrite Hw1, Hw2. apply map_ext. intros a.
      rewrite (unnormalized_perm o1 o2) by done.
      by rewrite (total_mass_perm s1 s1 o1 o2).
    + intros ρ Hb. rewrite (eval_run_elimination o1 fs r1 ρ) by done.
      rewrite (eval_run_elimination o2 fs r2 ρ) by done.
      rewrite (unnormalized_perm o1 o2) by done.
      by rewrite (total_mass_perm (scope r1) (scope r2) o1 o2).
  - destruct (run_elimination_OK o1 fs r1 Hwf H1) as (Hel & Hnd1 & Hsc1 & Hz1 & _).
    apply run_elimination_Raise in H2 as [[_ Hn]|(_ & _ & us & Hnd & Hus & Hz)]; [| |done].
    + apply Hn. by apply (eliminable_perm o1).
    + apply Hz1. rewrite <- Hz. apply total_mass_perm; [|done].
      apply NoDup_Permutation; [done|done|]. intros w. rewrite Hsc1, Hus.
      split; apply remaining_var_perm; done.
  - destruct (run_elimination_OK o2 fs r2 Hwf H2) as (Hel & Hnd2 & Hsc2 & Hz2 & _).
    apply run_elimination_Raise in H1 as [[_ Hn]|(_ & _ & us & Hnd & Hus & Hz)]; [| |done].
    + apply Hn. by apply (eliminable_perm o2).
    + apply Hz2. rewrite <- Hz. apply total_mass_perm; [|done].
      apply NoDup_Permutation; [done|done|]. intros w. rewrite Hsc2, Hus.
      split; apply remaining_var_perm; done.
  - apply run_elimination_Raise in H1; [|done].
    apply run_elimination_Raise in H2; [|done].
    destruct H1 as [[-> Hn1]|(-> & Hel1 & _)], H2 as [[-> Hn2]|(-> & Hel2 & _)];
      try done.
    + exfalso. apply Hn1. by apply (eliminable_perm o2).
    + exfalso. apply Hn2. by apply (eliminable_perm o1).
Qed.
End Engine.

(** ** Validated models *)

Lemma topo_sort_spec par fuel pending sorted res :
  topo_sort fuel par pending sorted = Some res →
  topological par sorted → (∀ v, v ∈ pending → v ∉ sorted) →
  topological par res ∧ ∀ v, v ∈ res ↔ v ∈ sorted ∨ v ∈ pending.
Proof.
  revert pending sorted. induction fuel as [|n IH]; intros pending sorted.
  - destruct pending as [|p pending]; simpl; [|done].
    intros [= <-] Ht _. split; [done|]. intros v. rewrite elem_of_nil. tauto.
  - destruct pending as [|p pending].
    { simpl. intros [= <-] Ht _. split; [done|]. intros v. rewrite elem_of_nil. tauto. }
    remember (p :: pending) as pend eqn:Hpend. cbn [topo_sort]. rewrite Hpend at 1.
    destruct (find _ pend) as [v|] eqn:Hfind; [|done].
    apply find_some in Hfind as [Hv Hpar].
    apply list_elem_of_In in Hv. apply bool_decide_eq_true in Hpar.
    intros Hres Ht Hfresh. apply IH in Hres as [Hres Hmem].
    + split; [done|]. intros w. rewrite Hmem, elem_of_app, list_elem_of_singleton, elem_of_drop.
      split; [intros [[?| ->]|[_ ?]]; auto|].
      intros [?|Hw]; [auto|]. destruct (decide (w = v)); auto.
    + constructor; auto.
    + intros w [Hne Hw]%elem_of_drop. rewrite elem_of_app, list_elem_of_singleton.
      intros [?|?]; [|done]. by apply (Hfresh w).
Qed.


Lemma topological_irreflexive par l v : topological par l → v ∈ l → v ∉ par v.
Proof.
  induction 1 as [|l w _ IH Hpar Hw]; [by intros ?%elem_of_nil|].
  intros [Hv| ->%list_elem_of_singleton]%elem_of_app; [by apply IH|].
  intros Hin. rewrite Forall_forall in Hpar. by apply Hw, Hpar.
Qed.

Lemma cpd_of_Some m v c : cpd_of m v = Some c → c ∈ cpds m ∧ variable c = v.
Proof.
  unfold cpd_of. intros [Hc Hv]%find_some. split; [by apply list_elem_of_In|].
  by apply bool_decide_eq_true in Hv.
Qed.

Lemma cpd_of_elem m c :
  NoDup (map variable (cpds m)) → c ∈ cpds m → cpd_of m (variable c) = Some c.
Proof.
  unfold cpd_of. induction (cpds m) as [|c' cs IH]; intros Hnd Hc; [by apply elem_of_nil in Hc|].
  simpl in *. apply NoDup_cons in Hnd as [Hc' Hnd].
  destruct (decide (variable c' = variable c)) as [Heq|Hne].
  - rewrite bool_decide_eq_true_2 by done. f_equal.
    apply elem_of_cons in Hc as [->|Hc]; [done|]. exfalso. apply Hc'.
    rewrite Heq. apply list_elem_of_In, in_map. by apply list_elem_of_In.
  - rewrite bool_decide_eq_false_2 by done.
    apply elem_of_cons in Hc as [->|Hc]; [done|]. by apply IH.
Qed.

Lemma elem_of_first_occurrences x l : x ∈ first_occurrences l ↔ x ∈ l.
Proof.
  unfold first_occurrences.
  rewrite list_elem_of_In, <- in_rev, <- list_elem_of_In, elem_of_remove_dups.
  by rewrite list_elem_of_In, <- in_rev, <- list_elem_of_In.
Qed.

Lemma NoDup_nodes m : NoDup (nodes m).
Proof.
  unfold nodes, first_occurrences. apply NoDup_ListNoDup, NoDup_rev, NoDup_ListNoDup.
  apply NoDup_remove_dups.
Qed.

Lemma parents_in_nodes m v p : p ∈ parents m v → p ∈ nodes m.
Proof.
  unfold parents, nodes. intros Hp. apply list_elem_of_In, in_map_iff in Hp as (e & <- & He).
  apply list_elem_of_In, list_elem_of_filter in He as [_ He].
  apply elem_of_first_occurrences, list_elem_of_In, in_flat_map. exists e.
  split; [by apply list_elem_of_In|]. by left.
Qed.

Lemma validate_OK m : validate m = OK () → valid_model m.
Proof.
  unfold validate. destruct (topological_order m) as [l|] eqn:Ht; [|done].
  destruct (bool_decide _) eqn:H1; [|done]. simpl.
  destruct (bool_decide (Forall (scope_matches m) (cpds m))) eqn:H2; [|done]. simpl.
  destruct (bool_decide (Forall locally_normalized (cpds m))) eqn:H3; [|done]. simpl.
  intros _. apply bool_decide_eq_true in H1 as [H1 H1'].
  apply bool_decide_eq_true in H2. apply bool_decide_eq_true in H3.
  rewrite Forall_forall in H1. rewrite Forall_forall in H2.
  rewrite Forall_forall in H3. split; try done.
  exists l. apply topo_sort_spec in Ht as [Ht Hmem].
  - split; [done|]. intros v. rewrite Hmem, elem_of_nil. tauto.
  - constructor.
  - intros v _. apply not_elem_of_nil.
Qed.

Lemma index_of_Some x l i : index_of x l = Some i → (i < length l)%nat.
Proof.
  revert i. induction l as [|y l IH]; intros i; simpl; [done|].
  case_decide; [intros [= <-]; lia|].
  destruct (index_of x l) as [j|]; simpl; [|done]. intros [= <-].
  specialize (IH j eq_refl). lia.
Qed.

Lemma index_of_elem x l : x ∈ l → is_Some (index_of x l).
Proof.
  induction l as [|y l IH]; [by intros ?%elem_of_nil|].
  intros Hx. simpl. case_decide; [by eexists|].
  apply elem_of_cons in Hx as [?|Hx]; [done|].
  destruct (IH Hx) as [j ->]. by eexists.
Qed.

Section ValidModel.
Variable m : BayesianNetwork.
Hypothesis Hvalid : valid_model m.

Lemma card_variable c : c ∈ cpds m → card m (variable c) = variable_card c.
Proof.
  intros Hc. unfold card. rewrite cpd_of_elem; [done| |done]. apply Hvalid.
Qed.

Lemma card_pos_model v : v ∈ nodes m → (0 < card m v)%nat.
Proof.
  intros Hv. destruct (valid_cpd m Hvalid v Hv) as [c Hc].
  apply cpd_of_Some in Hc as [Hc <-]. rewrite card_variable by done.
  apply (valid_scope m Hvalid c Hc).
Qed.

Lemma scope_to_factor c :
  c ∈ cpds m → scope (to_factor c) ⊆ nodes m ∧ NoDup (scope (to_factor c)).
Proof.
  intros Hc. destruct (valid_scope m Hvalid c Hc) as (Hv & Hnd & Hev & _).
  rewrite Forall_forall in Hev. simpl. split.
  - intros w [->|Hw]%elem_of_cons; [done|]. eapply parents_in_nodes, Hev, Hw.
  - constructor; [|done]. intros Hin. apply Hev in Hin.
    destruct (valid_order m Hvalid) as (l & Hl & Hmem).
    apply (topological_irreflexive _ l (variable c)) in Hin; [done|done|].
    by apply Hmem.
Qed.

Lemma wf_model : wf_factors (nodes m) (factors m).
Proof.
  unfold wf_factors, factors. rewrite Forall_forall.
  intros f Hf. apply list_elem_of_In, in_map_iff in Hf as (c & <- & Hc).
  apply scope_to_factor. by apply list_elem_of_In.
Qed.

Lemma vars_of_factors v : v ∈ vars_of (factors m) ↔ v ∈ nodes m.
Proof.
  split.
  - apply (vars_of_within _ _ wf_model).
  - intros Hv. destruct (valid_cpd m Hvalid v Hv) as [c Hc].
    apply cpd_of_Some in Hc as [Hc <-]. apply elem_of_vars_of.
    exists (to_factor c). split; [|by left].
    apply list_elem_of_In, in_map. by apply list_elem_of_In.
Qed.

Lemma evidence_index_valid evidence v s :
  evidence_index m evidence v = Some s → (s < card m v)%nat.
Proof.
  unfold evidence_index. destruct (evidence !! v) as [label|]; [|done].
  intros Hi. pose proof (index_of_Some _ _ _ Hi) as Hlt.
  unfold states, card in *. destruct (cpd_of m v) as [c|] eqn:Hc; [|simpl in Hlt; lia].
  apply cpd_of_Some in Hc as [Hc <-].
  destruct (valid_scope m Hvalid c Hc) as (_ & _ & _ & _ & _ & _ & _ & Hst & _).
  unfold states in Hst. rewrite cpd_of_elem in Hst; [lia| |done]. apply Hvalid.
Qed.

Lemma evidence_index_None evidence v :
  valid_states m evidence →
  evidence_index m evidence v = None ↔ evidence !! v = None.
Proof.
  intros Hst. unfold evidence_index. destruct (evidence !! v) as [label|] eqn:E; [|done].
  apply Hst, index_of_elem in E as [i ->]. done.
Qed.
End ValidModel.

(** ** Order independence of queries *)

(** Two outcomes of a query that carry the same posterior. *)
Lemma query_with_perm m targets evidence o1 o2 :
  o1 ≡ₚ o2 →
  match query_with o1 m targets evidence, query_with o2 m targets evidence with
  | OK r1, OK r2 =>
      scope r1 ≡ₚ scope r2
      ∧ (scope r1 = scope r2 → r1 = r2)
      ∧ ∀ ρ, bounded_on (card m) (nodes m) ρ → eval (card m) r1 ρ = eval (card m) r2 ρ
  | Raise e1, Raise e2 => e1 = e2
  | _, _ => False
  end.
Proof.
  intros Hp. unfold query_with.
  destruct (validate m) as [[]|e] eqn:Hv; simpl; [|done].
  apply validate_OK in Hv.
  destruct (bool_decide (valid_query m targets evidence)); simpl; [|done].
  destruct (bool_decide (valid_states m evidence)); simpl; [|done].
  apply (run_elimination_perm (card m) (nodes m)); [| |by apply wf_model|done].
  - intros v s. by apply evidence_index_valid.
  - intros v. by apply card_pos_model.
Qed.

Lemma query_with_inv o m targets evidence r :
  query_with o m targets evidence = OK r →
  valid_model m ∧ valid_query m targets evidence ∧ valid_states m evidence
  ∧ run_elimination (card m) o (evidence_index m evidence) (factors m) = OK r.
Proof.
  unfold query_with. destruct (validate m) as [[]|e] eqn:Hv; simpl; [|done].
  apply validate_OK in Hv.
  destruct (bool_decide (valid_query m targets evidence)) eqn:Hq; simpl; [|done].
  destruct (bool_decide (valid_states m evidence)) eqn:Hs; simpl; [|done].
  apply bool_decide_eq_true in Hq. apply bool_decide_eq_true in Hs. done.
Qed.

Lemma elem_of_elimination_set m targets evidence v :
  v ∈ elimination_set m targets evidence
  ↔ v ∈ nodes m ∧ (v ∉ targets) ∧ evidence !! v = None.
Proof. unfold elimination_set. rewrite list_elem_of_filter. tauto. Qed.

Lemma remaining_targets m targets evidence o w :
  valid_model m → valid_query m targets evidence → valid_states m evidence →
  o ≡ₚ elimination_set m targets evidence →
  remaining_var o (evidence_index m evidence) (factors m) w ↔ w ∈ targets.
Proof.
  intros Hv (_ & _ & Hn & _ & Hd) Hs Hp. rewrite Forall_forall in Hn, Hd.
  unfold remaining_var. rewrite Hp, vars_of_factors, evidence_index_None by done.
  rewrite elem_of_elimination_set. split.
  - intros (H1 & H2 & H3). destruct (decide (w ∈ targets)); [done|]. tauto.
  - intros Hw. split; [by apply Hn|]. split; [by apply Hd|]. tauto.
Qed.

(** With a complete elimination order the answer ranges over exactly the
    targets. *)
Lemma query_with_scope o m targets evidence r :
  o ≡ₚ elimination_set m targets evidence →
  query_with o m targets evidence = OK r → scope r ≡ₚ targets.
Proof.
  intros Hp (Hv & Hq & Hs & Hr)%query_with_inv.
  apply (run_elimination_OK (card m) (nodes m)) in Hr as (_ & Hnd & Hsc & _).
  - apply NoDup_Permutation; [done|apply Hq|]. intros w. rewrite Hsc.
    by apply remaining_targets.
  - intros v s. by apply evidence_index_valid.
  - intros v. by apply card_pos_model.
  - by apply wf_model.
Qed.

Lemma query_with_scope_single o m x evidence r :
  o ≡ₚ elimination_set m [x] evidence →
  query_with o m [x] evidence = OK r → scope r = [x].
Proof.
  intros Hp Hr. apply query_with_scope in Hr; [|done].
  by apply Permutation_singleton_r in Hr.
Qed.

(** ** Reading a CPT *)




Section ReadCPT.
Variable m : BayesianNetwork.
Hypothesis Hvalid : valid_model m.





End ReadCPT.

(** ** The joint of a validated network has positive total mass *)




Section JointMass.
Variable m : BayesianNetwork.
Hypothesis Hvalid : valid_model m.








End JointMass.

(** ** Queries without evidence *)








Section Prior.
Variable m : BayesianNetwork.
Variable x : string.
Hypothesis Hvalidate : validate m = OK ().
Hypothesis Hx : x ∈ nodes m.






End Prior.

(** ** Claims about the engine *)

(** C6. For a fixed model, targets and evidence, any two permutations of
    an elimination order give the same outcome: the same error, or
    posteriors over the same variables with equal weights at every
    assignment, literally the same table when the axes coincide; and when
    the order is a full ordering of the elimination set, the answer ranges
    over exactly the targets, so a single-target answer is the same table. *)
Theorem order_independence (m : BayesianNetwork) (targets : list string)
    (evidence : gmap string string) (o1 o2 : list string) :
  o1 ≡ₚ o2 →
  same_posterior m (query_with o1 m targets evidence)
                   (query_with o2 m targets evidence)
  ∧ (o1 ≡ₚ elimination_set m targets evidence →
     ∀ r1 r2, query_with o1 m targets evidence = OK r1 →
              query_with o2 m targets evidence = OK r2 →
              scope r1 ≡ₚ targets ∧ ∀ x, targets = [x] → r1 = r2).
Proof.
  intros Hp. pose proof (query_with_perm m targets evidence o1 o2 Hp) as Hsame.
  split; [exact Hsame|]. intros Ho r1 r2 H1 H2. split.
  - by eapply query_with_scope.
  - intros x ->. rewrite H1, H2 in Hsame. destruct Hsame as (_ & Heq & _).
    apply Heq. rewrite (query_with_scope_single o1 m x evidence r1 Ho H1).
    symmetry. eapply query_with_scope_single; [|done]. by rewrite <- Hp.
Qed.

Lemma order_independence_witness :
  ["PG"; "Neumonia"] ≡ₚ ["Neumonia"; "PG"]
  ∧ same_posterior modelo
      (query_with ["PG"; "Neumonia"] modelo ["Gripe"]
         {[ "Fiebre" := "Sí"; "Tos" := "Sí"; "Dolor_cabeza" := "No" ]})
      (query_with ["Neumonia"; "PG"] modelo ["Gripe"]
         {[ "Fiebre" := "Sí"; "Tos" := "Sí"; "Dolor_cabeza" := "No" ]}).
Proof.
  split; [apply perm_swap|].
  exact (proj1 (order_independence modelo ["Gripe"]
                  {[ "Fiebre" := "Sí"; "Tos" := "Sí"; "Dolor_cabeza" := "No" ]}
                  ["PG"; "Neumonia"] ["Neumonia"; "PG"]
                  (perm_swap "Neumonia" "PG" []))).
Defined.

Lemma Qc_list_eq (l1 l2 : list Qc) : map this l1 = map this l2 → l1 = l2.
Proof.
  revert l2. induction l1 as [|x l1 IH]; intros [|y l2]; simpl; try done.
  intros [= Hxy Hl]. f_equal; [|by apply IH].
  apply Qc_is_canon. by rewrite Hxy.
Qed.

Lemma OK_factor_eq (r : result Factor) (sc : list string) (ws : list Qc) :
  match r with
  | OK f => scope f = sc ∧ map this (weights f) = map this ws
  | Raise _ => False
  end → r = OK (mkFactor sc ws).
Proof.
  destruct r as [[sc' ws']|e]; [|done]. simpl. intros [-> Hw].
  by rewrite (Qc_list_eq _ _ Hw).
Qed.




(** ** The loop over the symptom dictionary *)

Lemma assoc_None {V} k (l : list (string * V)) : k ∉ l.*1 → assoc k l = None.
Proof.
  induction l as [|[k' v] l IH]; simpl; [done|].
  intros [Hne Hk]%not_elem_of_cons. rewrite decide_False by done. by apply IH.
Qed.


Lemma assoc_is_Some {V} k (l : list (string * V)) : k ∈ l.*1 → is_Some (assoc k l).
Proof.
  induction l as [|[k' v'] l IH]; simpl; [by intros ?%elem_of_nil|].
  intros [->|Hk]%elem_of_cons; [by rewrite decide_True|].
  case_decide; [by eexists|by apply IH].
Qed.

Lemma list_remove_filter x l :
  NoDup l → x ∈ l → list_remove x l = OK (filter (λ y, y ≠ x) l).
Proof.
  induction 1 as [|y l Hy Hnd IH]; [by intros ?%elem_of_nil|].
  intros Hx. simpl. rewrite filter_cons. destruct (decide (x = y)) as [->|Hne].
  - rewrite decide_False by (intros H; by apply H). f_equal. symmetry.
    apply filter_all. intros z Hz ->. done.
  - rewrite decide_True by done. apply elem_of_cons in Hx as [?|Hx]; [done|].
    by rewrite IH.
Qed.

(** The loop over [sintomas.items()] of [diagnosticar_pgmpy]. *)
Lemma recoger_loop (l : list (string * string)) ev0 enf0 :
  NoDup l.*1 → NoDup enf0 → enf0 ⊆ reconocidas →
  (∀ k, k ∈ l.*1 → k ∈ reconocidas → k ∈ enf0) →
  ∃ ev enf,
    foldM recoger (ev0, enf0) l = OK (ev, enf)
    ∧ enf = filter (λ v, v ∉ l.*1) enf0
    ∧ ∀ k, ev !! k = match assoc k l with
                     | Some v => if decide (k ∈ reconocidas) then Some v else ev0 !! k
                     | None => ev0 !! k
                     end.
Proof.
  revert ev0 enf0. induction l as [|[k0 v0] l IH]; intros ev0 enf0 Hnd Hnd0 Hsub Hin.
  - exists ev0, enf0. split; [done|]. split; [|done].
    symmetry. apply filter_all. intros v _. apply not_elem_of_nil.
  - simpl in Hnd. apply NoDup_cons in Hnd as [Hk0 Hnd]. simpl.
    unfold recoger at 1. simpl. destruct (decide (k0 ∈ reconocidas)) as [Hrec|Hrec].
    + rewrite list_remove_filter; [|done|apply Hin; [by left|done]]. simpl.
      destruct (IH (<[k0:=v0]> ev0) (filter (λ y, y ≠ k0) enf0)) as (ev & enf & Hf & Henf & Hev).
      * done.
      * by apply NoDup_filter.
      * intros v [_ Hv]%list_elem_of_filter. by apply Hsub.
      * intros k Hk Hr. apply list_elem_of_filter. split; [by intros ->|].
        apply Hin; [by right|done].
      * exists ev, enf. split; [done|]. split.
        -- rewrite Henf, list_filter_filter. apply list_filter_iff. intros v.
           rewrite not_elem_of_cons. tauto.
        -- intros k. rewrite Hev. destruct (decide (k = k0)) as [->|Hne].
           ++ rewrite assoc_None by done. rewrite lookup_insert_eq.
              by rewrite decide_True.
           ++ rewrite lookup_insert_ne by done. done.
    + destruct (IH ev0 enf0) as (ev & enf & Hf & Henf & Hev); try done.
      * intros k Hk Hr. apply Hin; [by right|done].
      * exists ev, enf. split; [done|]. split.
        -- rewrite Henf. apply filter_iff_in. intros v Hv.
           rewrite not_elem_of_cons. split; [|tauto]. intros Hvl. split; [|done].
           intros ->. by apply Hrec, Hsub.
        -- intros k. rewrite Hev. destruct (decide (k = k0)) as [->|Hne]; [|done].
           rewrite assoc_None by done. by rewrite decide_False.
Qed.

Lemma preparar_OK (sintomas : list (string * string)) :
  NoDup sintomas.*1 →
  ∃ evidencias enfermedades,
    preparar sintomas = OK (evidencias, enfermedades)
    ∧ enfermedades = filter (λ v, v ∉ sintomas.*1) enfermedades_iniciales
    ∧ ∀ k, evidencias !! k
           = if decide (k ∈ reconocidas) then assoc k sintomas else None.
Proof.
  intros Hnd.
  destruct (recoger_loop sintomas ∅ enfermedades_iniciales Hnd)
    as (ev & enf & Hf & Henf & Hev).
  - by apply (bool_decide_unpack _).
  - by apply (bool_decide_unpack _).
  - intros k _ Hk. revert Hk. unfold reconocidas, enfermedades_iniciales.
    rewrite !elem_of_cons, !elem_of_nil. tauto.
  - exists ev, enf. split; [done|]. split; [done|]. intros k. rewrite Hev.
    rewrite lookup_empty. destruct (assoc k sintomas); by case_decide.
Qed.

(** ** Evidence of probability zero *)

Section EvidenceMass.
Variable m : BayesianNetwork.
Variable targets : list string.
Variable evidence : gmap string string.
Hypothesis Hvalid : valid_model m.
Hypothesis Hquery : valid_query m targets evidence.
Hypothesis Hstates : valid_states m evidence.

Lemma eliminable_plan :
  eliminable (elimination_set m targets evidence) (evidence_index m evidence)
             (factors m).
Proof.
  split; [apply NoDup_filter, NoDup_nodes|].
  intros w (Hw & _ & He)%elem_of_elimination_set. split.
  - by apply vars_of_factors.
  - by apply evidence_index_None.
Qed.

Lemma unobserved_perm us o :
  us ≡ₚ targets → o ≡ₚ elimination_set m targets evidence →
  us ++ o ≡ₚ filter (λ v, evidence !! v = None) (nodes m).
Proof.
  intros Hus Ho. destruct Hquery as (_ & Hnd & Hn & _ & Hd).
  rewrite Forall_forall in Hn, Hd. rewrite Hus, Ho.
  apply NoDup_Permutation.
  - apply NoDup_app. split; [done|]. split; [|apply NoDup_filter, NoDup_nodes].
    intros w Hw (_ & Hnw & _)%elem_of_elimination_set. done.
  - apply NoDup_filter, NoDup_nodes.
  - intros w. rewrite elem_of_app, elem_of_elimination_set, list_elem_of_filter.
    split.
    + intros [Hw|(Hw & _ & He)]; [|done]. split; [by apply Hd|by apply Hn].
    + intros [He Hw]. destruct (decide (w ∈ targets)); [by left|by right].
Qed.

Lemma total_mass_evidence us o :
  us ≡ₚ targets → o ≡ₚ elimination_set m targets evidence →
  total_mass (card m) us o (evidence_index m evidence) (factors m)
  = evidence_mass m evidence.
Proof.
  intros Hus Ho. unfold total_mass, unnormalized, evidence_mass.
  rewrite <- isum_app. apply isum_perm; [by apply unobserved_perm|].
  intros ρ ρ' H. apply prod_eval_extensional. intros v. unfold override.
  by rewrite H.
Qed.

(** A valid query fails exactly when the evidence has probability zero,
    and then with [DegenerateFactorError]. *)
Lemma query_outcome :
  validate m = OK () →
  (evidence_mass m evidence = 0
   ∧ query m targets evidence = Raise DegenerateFactorError)
  ∨ (evidence_mass m evidence ≠ 0 ∧ ∃ r, query m targets evidence = OK r).
Proof.
  intros Hv. unfold query, plan, query_with. rewrite Hv. simpl.
  rewrite !bool_decide_eq_true_2 by done. simpl.
  destruct (run_elimination _ _ _ _) as [r|e] eqn:Hr.
  - right. split; [|by eexists].
    pose proof Hr as Hsc.
    apply (run_elimination_OK (card m) (nodes m)) in Hr as (_ & _ & _ & Hz & _);
      [|apply (evidence_index_valid m Hvalid)|apply (card_pos_model m Hvalid)
       |by apply wf_model].
    rewrite total_mass_evidence in Hz; [done| |done].
    apply (query_with_scope (elimination_set m targets evidence) m targets
             evidence r); [done|].
    unfold query_with. rewrite Hv. simpl. by rewrite !bool_decide_eq_true_2 by done.
  - left.
    apply (run_elimination_Raise (card m) (nodes m)) in Hr
        as [[_ Hn]|(-> & _ & us & Hnd & Hus & Hz)];
      [| |apply (evidence_index_valid m Hvalid)|apply (card_pos_model m Hvalid)
       |by apply wf_model].
    + exfalso. apply Hn, eliminable_plan.
    + split; [|done]. rewrite <- Hz. symmetry. apply total_mass_evidence; [|done].
      apply NoDup_Permutation; [done|apply Hquery|]. intros w. rewrite Hus.
      by apply remaining_targets.
Qed.
End EvidenceMass.

(** ** Claims about failures *)


Lemma query_zero_mass m targets evidence r :
  evidence_mass m evidence = 0 → query m targets evidence ≠ OK r.
Proof.
  intros Hz Hr. pose proof Hr as (Hv & Hq & Hs & _)%query_with_inv.
  assert (Hval : validate m = OK ()).
  { unfold query, query_with in Hr. by destruct (validate m) as [[]|]. }
  destruct (query_outcome m targets evidence Hv Hq Hs Hval) as [[_ H]|[H _]];
    congruence.
Qed.






(** ** Claims about the six-variable network *)

(** Closed goals are settled by evaluation. *)
Ltac qc_compute := apply Qc_is_canon; vm_compute; reflexivity.
Ltac decide_compute := apply (bool_decide_unpack _); vm_compute; reflexivity.

Lemma Some_Qc_list_eq (o : option (list Qc)) (l : list Qc) :
  map this <$> o = Some (map this l) → o = Some l.
Proof.
  destruct o as [l'|]; simpl; [|done]. intros [= H]. f_equal. by apply Qc_list_eq.
Qed.

Lemma query_gripe_caso1 :
  query modelo ["Gripe"] evidencia_caso1
  = OK (mkFactor ["Gripe"] [dec (2368 # 7065); dec (4697 # 7065)]).
Proof. apply OK_factor_eq. by vm_compute. Qed.

Lemma query_gripe_prior :
  query modelo ["Gripe"] ∅ = OK (mkFactor ["Gripe"] [dec 0.4; dec 0.6]).
Proof. apply OK_factor_eq. by vm_compute. Qed.

(** C1 (as amended). For the six-variable network, the query for Gripe
    under Fiebre = Sí, Tos = Sí, Dolor_cabeza = No returns a distribution
    over the two states Sí, No, both positive and summing to 1 (within
    the tolerance); its P(Sí) is the value enumeration of the joint
    gives (within the tolerance), and it is less than the prior
    P(Gripe = Sí) by more than 0.05;
    that prior is 0.4 (within the tolerance), not 0.38. The diagnosis
    function returns this distribution for Gripe. The posterior is below
    the prior by more than 0.05 with the tables of each of the three
    scripts. *)
Theorem caso1_gripe_posterior :
  states modelo "Gripe" = ["Sí"; "No"]
  ∧ (∃ p_si p_no prior_si prior_no,
       query modelo ["Gripe"] evidencia_caso1 = OK (mkFactor ["Gripe"] [p_si; p_no])
       ∧ query modelo ["Gripe"] ∅ = OK (mkFactor ["Gripe"] [prior_si; prior_no])
       ∧ 0 < p_si ∧ 0 < p_no
       ∧ 1 - tolerance <= p_si + p_no ∧ p_si + p_no <= 1 + tolerance
       ∧ dec 0.4 - tolerance <= prior_si ∧ prior_si <= dec 0.4 + tolerance
       ∧ p_si + dec 0.05 < prior_si
       ∧ posterior joint_pgmpy con_gripe es_caso1 - tolerance <= p_si
       ∧ p_si <= posterior joint_pgmpy con_gripe es_caso1 + tolerance
       ∧ ∃ diagnostico,
           diagnosticar_pgmpy modelo sintomas_caso1 = OK (Some diagnostico)
           ∧ diagnostico !! "Gripe" = Some [p_si; p_no])
  ∧ Forall (λ J : Caso → Qc,
              posterior J con_gripe es_caso1 + dec 0.05
              < posterior J con_gripe (fun _ => true))
           [joint_pgmpy; joint_pomegranate; joint_pymc].
Proof.
  split; [reflexivity|]. split.
  - exists (dec (2368 # 7065)), (dec (4697 # 7065)), (dec 0.4), (dec 0.6).
    split; [apply query_gripe_caso1|]. split; [apply query_gripe_prior|].
    repeat (split; [by vm_compute|]).
    eexists. split; [vm_compute; reflexivity|].
    apply Some_Qc_list_eq. vm_compute. reflexivity.
  - repeat (apply Forall_cons; split; [by vm_compute|]). apply Forall_nil_2.
Qed.

(** C1, as stated, fails: the posterior P(Gripe = Sí) under the evidence
    of Caso 1 is not greater than the prior. *)
Lemma caso1_gripe_not_above_prior :
  ¬ ∃ p_si p_no prior_si prior_no,
      query modelo ["Gripe"] evidencia_caso1 = OK (mkFactor ["Gripe"] [p_si; p_no])
      ∧ query modelo ["Gripe"] ∅ = OK (mkFactor ["Gripe"] [prior_si; prior_no])
      ∧ p_si + p_no = 1
      ∧ prior_si < p_si.
Proof.
  intros (p_si & p_no & prior_si & prior_no & H1 & H2 & _ & Hlt).
  rewrite query_gripe_caso1 in H1. rewrite query_gripe_prior in H2.
  injection H1 as <- <-. injection H2 as <- <-. revert Hlt. by vm_compute.
Qed.








(** C4. The pomegranate and PyMC scripts encode the same joint
    distribution, but the pgmpy script does not: its tables give
    P(Tos = Sí | Neumonia = No) = 0.2 and P(Dolor_cabeza = Sí | Gripe = No)
    = 0.3 where the other two give 0.3 and 0.2. The joints differ at
    PG = Alta, Gripe = No, Neumonia = No, Fiebre = No, Tos = Sí,
    Dolor_cabeza = No, and so do the exact posteriors of Gripe = Sí under
    the evidence of Caso 1: 2368/7065 against 636/2005. *)
Theorem pgmpy_tables_differ :
  Forall (λ c, joint_pomegranate c = joint_pymc c) casos
  ∧ nth 1 (nth 0 (values cpd_tos) []) 0 = dec 0.2
  ∧ Pomegranate.fila ["No"; "Sí"] Pomegranate.tos = dec 0.3
  ∧ PyMC.p_tos 0 = dec 0.3
  ∧ nth 1 (nth 0 (values cpd_dolor) []) 0 = dec 0.3
  ∧ Pomegranate.fila ["No"; "Sí"] Pomegranate.dolor_cabeza = dec 0.2
  ∧ PyMC.p_dolor 0 = dec 0.2
  ∧ joint_pgmpy (mkCaso "Alta" "No" "No" "No" "Sí" "No") = dec (567 # 125000)
  ∧ joint_pomegranate (mkCaso "Alta" "No" "No" "No" "Sí" "No") = dec (243 # 31250)
  ∧ joint_pymc (mkCaso "Alta" "No" "No" "No" "Sí" "No") = dec (243 # 31250)
  ∧ posterior joint_pgmpy con_gripe es_caso1 = dec (2368 # 7065)
  ∧ posterior joint_pomegranate con_gripe es_caso1 = dec (636 # 2005)
  ∧ posterior joint_pymc con_gripe es_caso1 = dec (636 # 2005).
Proof.
  split; [decide_compute|].
  repeat split; qc_compute.
Qed.

(** ** Positive support *)

Lemma query_not_degenerate m targets evidence :
  evidence_mass m evidence ≠ 0 →
  query m targets evidence ≠ Raise DegenerateFactorError.
Proof.
  intros Hz Hr. unfold query, plan, query_with in Hr.
  destruct (validate m) as [[]|e] eqn:Hv; simpl in Hr.
  - destruct (bool_decide (valid_query m targets evidence)) eqn:Hq; simpl in Hr; [|done].
    destruct (bool_decide (valid_states m evidence)) eqn:Hs; simpl in Hr; [|done].
    apply bool_decide_eq_true in Hq. apply bool_decide_eq_true in Hs.
    destruct (query_outcome m targets evidence (validate_OK m Hv) Hq Hs Hv)
      as [[H _]|[_ [r H]]]; [done|].
    unfold query, plan, query_with in H. rewrite Hv in H. simpl in H.
    rewrite !bool_decide_eq_true_2 in H by done. simpl in H. congruence.
  - injection Hr as ->. unfold validate in Hv.
    repeat (destruct (_ : bool) in Hv; simpl in Hv; try done);
      by destruct (topological_order m).
Qed.

Lemma lookup_evidencia_sintomas f t d k :
  evidencia_sintomas f t d !! k
  = if decide (k = "Fiebre") then respuesta <$> f
    else if decide (k = "Tos") then respuesta <$> t
    else if decide (k = "Dolor_cabeza") then respuesta <$> d
    else None.
Proof.
  unfold evidencia_sintomas, anotar.
  destruct f, t, d; simpl; repeat case_decide; subst;
    rewrite ?lookup_insert_eq, ?lookup_insert_ne, ?lookup_empty by done; done.
Qed.

Lemma respuesta_leer label :
  label ∈ si_no → respuesta (bool_decide (label = "Sí")) = label.
Proof.
  unfold si_no. rewrite !elem_of_cons, elem_of_nil. by intros [->|[->|[]]].
Qed.

(** Every yes/no evidence on the three symptoms is one of the 27 mappings
    [evidencia_sintomas f t d]. *)
Lemma evidencia_sintomas_cover evidence :
  evidencia_de_sintomas evidence → ∃ f t d, evidence = evidencia_sintomas f t d.
Proof.
  intros H.
  exists ((λ l, bool_decide (l = "Sí")) <$> evidence !! "Fiebre"),
         ((λ l, bool_decide (l = "Sí")) <$> evidence !! "Tos"),
         ((λ l, bool_decide (l = "Sí")) <$> evidence !! "Dolor_cabeza").
  apply map_eq. intros k. rewrite lookup_evidencia_sintomas.
  assert (Hk : ∀ k', respuesta <$> ((λ l, bool_decide (l = "Sí")) <$> evidence !! k')
                     = evidence !! k').
  { intros k'. destruct (evidence !! k') as [l|] eqn:E; [|done]. simpl. f_equal.
    apply respuesta_leer. by apply (H k' l E). }
  repeat case_decide; subst; rewrite ?Hk; try done.
  destruct (evidence !! k) as [l|] eqn:E; [|done].
  destruct (H k l E) as [Hin _]. revert Hin.
  rewrite !elem_of_cons, elem_of_nil. tauto.
Qed.

(** C8. Every weight of every CPT of the six-variable network is at
    least 0.1, in each of the three scripts, and 0.1 occurs; every
    evidence on Fiebre, Tos and Dolor_cabeza (each Sí, No or unobserved)
    has positive probability, so no query under it fails with
    [DegenerateFactorError], and every query for an unobserved variable
    of the network succeeds. *)
Theorem evidence_always_supported :
  Forall (λ c, Forall (Forall (λ w, dec 0.1 <= w)) (values c)) (cpds modelo)
  ∧ nth 3 (nth 0 (values cpd_fiebre) []) 0 = dec 0.1
  ∧ Forall (λ row, dec 0.1 <= row.2)
           (Pomegranate.gripe ++ Pomegranate.neumonia ++ Pomegranate.fiebre
            ++ Pomegranate.tos ++ Pomegranate.dolor_cabeza)
  ∧ Forall (λ row, dec 0.1 <= row.2) Pomegranate.pg
  ∧ Forall (λ p, dec 0.1 <= p ∧ dec 0.1 <= 1 - p)
           ([PyMC.p_gripe 0; PyMC.p_gripe 1; PyMC.p_gripe 2;
             PyMC.p_neumonia 0; PyMC.p_neumonia 1; PyMC.p_neumonia 2;
             PyMC.p_fiebre 0 0; PyMC.p_fiebre 0 1; PyMC.p_fiebre 1 0;
             PyMC.p_fiebre 1 1; PyMC.p_tos 0; PyMC.p_tos 1;
             PyMC.p_dolor 0; PyMC.p_dolor 1] ++ PyMC.pg_probs)
  ∧ ∀ evidence : gmap string string,
      evidencia_de_sintomas evidence →
      0 < evidence_mass modelo evidence
      ∧ (∀ targets, query modelo targets evidence ≠ Raise DegenerateFactorError)
      ∧ (∀ x, x ∈ nodes modelo → evidence !! x = None →
              ∃ r, query modelo [x] evidence = OK r).
Proof.
  split; [decide_compute|]. split; [qc_compute|]. split; [decide_compute|].
  split; [decide_compute|]. split; [decide_compute|].
  intros evidence (f & t & d & ->)%evidencia_sintomas_cover.
  assert (Hpos : 0 < evidence_mass modelo (evidencia_sintomas f t d)).
  { destruct f as [[]|], t as [[]|], d as [[]|]; vm_compute; reflexivity. }
  assert (Hne : evidence_mass modelo (evidencia_sintomas f t d) ≠ 0).
  { intros Hz. rewrite Hz in Hpos. done. }
  split; [done|]. split.
  - intros targets. by apply query_not_degenerate.
  - intros x Hx Hnone.
    assert (Hv : validate modelo = OK ()) by (vm_compute; reflexivity).
    assert (Hs : valid_states modelo (evidencia_sintomas f t d)).
    { destruct f as [[]|], t as [[]|], d as [[]|]; decide_compute. }
    assert (Hq : valid_query modelo [x] (evidencia_sintomas f t d)).
    { split; [done|]. split; [apply NoDup_singleton|]. split; [by constructor|].
      split; [|by repeat constructor].
      destruct f as [[]|], t as [[]|], d as [[]|]; decide_compute. }
    destruct (query_outcome modelo [x] _ (validate_OK _ Hv) Hq Hs Hv)
      as [[H _]|[_ H]]; done.
Qed.

Lemma evidence_always_supported_witness :
  evidencia_de_sintomas evidencia_caso1
  ∧ "PG" ∈ nodes modelo
  ∧ evidencia_caso1 !! "PG" = None
  ∧ ∃ r, query modelo ["PG"] evidencia_caso1 = OK r.
Proof.
  assert (He : evidencia_de_sintomas evidencia_caso1)
    by (apply (bool_decide_unpack _); vm_compute; reflexivity).
  assert (Hx : "PG" ∈ nodes modelo)
    by (apply (bool_decide_unpack _); vm_compute; reflexivity).
  assert (Hnone : evidencia_caso1 !! "PG" = None) by (vm_compute; reflexivity).
  split; [exact He|]. split; [exact Hx|]. split; [exact Hnone|].
  destruct evidence_always_supported as (_ & _ & _ & _ & _ & H).
  destruct (H evidencia_caso1 He) as (_ & _ & Hq).
  exact (Hq "PG" Hx Hnone).
Defined.

(** ** Claims about the diagnosis functions *)




Lemma pomegranate_recoger_ne ev0 k0 v0 k :
  k ≠ k0 → Pomegranate.recoger ev0 (k0, v0) !! k = ev0 !! k.
Proof.
  intros Hne. unfold Pomegranate.recoger. simpl.
  repeat case_decide; subst; by rewrite ?lookup_insert_ne.
Qed.

Lemma pomegranate_recoger_eq ev0 k0 v0 :
  Pomegranate.recoger ev0 (k0, v0) !! k0
  = if decide (k0 ∈ sintomas_reconocidos) then Some v0 else ev0 !! k0.
Proof.
  unfold Pomegranate.recoger, sintomas_reconocidos. simpl.
  destruct (decide (k0 = "Fiebre")) as [->|H1]; [by rewrite lookup_insert_eq|].
  destruct (decide (k0 = "Tos")) as [->|H2]; [by rewrite lookup_insert_eq|].
  destruct (decide (k0 = "Dolor_cabeza")) as [->|H3]; [by rewrite lookup_insert_eq|].
  rewrite decide_False; [done|]. rewrite !elem_of_cons, elem_of_nil. tauto.
Qed.

(** The loop over [sintomas.items()] of the pomegranate [diagnosticar]. *)
Lemma pomegranate_recoger_loop (l : list (string * string)) ev0 k :
  NoDup l.*1 →
  foldl Pomegranate.recoger ev0 l !! k
  = match assoc k l with
    | Some v => if decide (k ∈ sintomas_reconocidos) then Some v else ev0 !! k
    | None => ev0 !! k
    end.
Proof.
  revert ev0. induction l as [|[k0 v0] l IH]; intros ev0 Hnd; [done|].
  simpl in Hnd. apply NoDup_cons in Hnd as [Hk0 Hnd]. simpl. rewrite IH by done.
  destruct (decide (k = k0)) as [->|Hne].
  - rewrite assoc_None by done. apply pomegranate_recoger_eq.
  - by rewrite pomegranate_recoger_ne by done.
Qed.

Lemma pomegranate_preparar_lookup (sintomas : list (string * string)) k :
  NoDup sintomas.*1 →
  Pomegranate.preparar sintomas !! k
  = if decide (k ∈ sintomas_reconocidos) then assoc k sintomas else None.
Proof.
  intros Hnd. unfold Pomegranate.preparar. rewrite pomegranate_recoger_loop by done.
  rewrite lookup_empty. destruct (assoc k sintomas); by case_decide.
Qed.

(** C9. The pomegranate [diagnosticar] forwards only Fiebre, Tos and
    Dolor_cabeza to [predict_proba]: two symptom dictionaries that agree on
    these three keys produce the same evidence and the same diagnosis,
    whatever [predict_proba] does; in particular any other key is dropped
    without an error. *)
Theorem only_symptoms_forwarded
    (predict_proba : gmap string string → result (list Pomegranate.prediction))
    (s1 s2 : list (string * string)) :
  NoDup s1.*1 → NoDup s2.*1 →
  (∀ k, k ∈ sintomas_reconocidos → assoc k s1 = assoc k s2) →
  Pomegranate.preparar s1 = Pomegranate.preparar s2
  ∧ Pomegranate.diagnosticar predict_proba s1
    = Pomegranate.diagnosticar predict_proba s2
  ∧ (∀ k, k ∉ sintomas_reconocidos → Pomegranate.preparar s1 !! k = None).
Proof.
  intros H1 H2 Hagree.
  assert (Heq : Pomegranate.preparar s1 = Pomegranate.preparar s2).
  { apply map_eq. intros k. rewrite !pomegranate_preparar_lookup by done.
    case_decide; [by apply Hagree|done]. }
  split; [done|]. split.
  - unfold Pomegranate.diagnosticar, Pomegranate.diagnosticar_cuerpo. by rewrite Heq.
  - intros k Hk. rewrite pomegranate_preparar_lookup by done. by rewrite decide_False.
Qed.

Lemma only_symptoms_forwarded_witness :
  NoDup [("Fiebre", "Sí"); ("Gripe", "Sí"); ("Edad", "40")].*1
  ∧ NoDup [("Fiebre", "Sí")].*1
  ∧ Pomegranate.diagnosticar (fun _ => Raise IndexError)
      [("Fiebre", "Sí"); ("Gripe", "Sí"); ("Edad", "40")]
    = Pomegranate.diagnosticar (fun _ => Raise IndexError) [("Fiebre", "Sí")].
Proof.
  assert (H1 : NoDup [("Fiebre", "Sí"); ("Gripe", "Sí"); ("Edad", "40")].*1)
    by (apply (bool_decide_unpack _); vm_compute; reflexivity).
  assert (H2 : NoDup [("Fiebre", "Sí")].*1)
    by (apply (bool_decide_unpack _); vm_compute; reflexivity).
  split; [exact H1|]. split; [exact H2|].
  refine (proj1 (proj2 (only_symptoms_forwarded _ _ _ H1 H2 _))).
  intros k Hk. apply (bool_decide_unpack _). revert k Hk.
  apply Forall_forall. apply (bool_decide_unpack _). vm_compute. reflexivity.
Defined.

(** * The console code of the scripts: properties *)

Lemma assoc_dict_set_eq {V} k (v : V) d : assoc k (dict_set k v d) = Some v.
Proof.
  unfold dict_set. destruct (decide (k ∈ d.*1)) as [Hk|Hk].
  - induction d as [|[k' v'] d IH]; [by apply elem_of_nil in Hk|].
    simpl. destruct (decide (k' = k)) as [->|Hne]; simpl.
    + by rewrite decide_True.
    + rewrite decide_False by done. apply IH.
      simpl in Hk. apply elem_of_cons in Hk as [?|?]; [by subst|done].
  - induction d as [|[k' v'] d IH]; simpl; [by rewrite decide_True|].
    simpl in Hk. apply not_elem_of_cons in Hk as [Hne Hk].
    rewrite decide_False by done. by apply IH.
Qed.

Lemma assoc_app_ne {V} k k' (v : V) d :
  k ≠ k' → assoc k (d ++ [(k', v)]) = assoc k d.
Proof.
  intros Hne. induction d as [|[k0 v0] d IH]; simpl.
  - by rewrite decide_False.
  - by rewrite IH.
Qed.

Lemma assoc_dict_set_ne {V} k k' (v : V) d :
  k ≠ k' → assoc k (dict_set k' v d) = assoc k d.
Proof.
  intros Hne. unfold dict_set. destruct (decide (k' ∈ d.*1)) as [Hk|Hk].
  - clear Hk. induction d as [|[k0 v0] d IH]; [done|].
    simpl. destruct (decide (k0 = k')) as [->|Hne']; simpl.
    + by rewrite !decide_False by done.
    + by rewrite IH.
  - by apply assoc_app_ne.
Qed.

Lemma keys_dict_set_new {V} k (v : V) d :
  k ∉ d.*1 → dict_set k v d = d ++ [(k, v)].
Proof. intros Hk. unfold dict_set. by rewrite decide_False. Qed.

Lemma keys_dict_set_old {V} k (v : V) d :
  k ∈ d.*1 → (dict_set k v d).*1 = d.*1.
Proof.
  intros Hk. unfold dict_set. rewrite decide_True by done. clear Hk.
  induction d as [|[k0 v0] d IH]; [done|]. cbn [map fmap list_fmap fst] in *.
  f_equal; [|exact IH]. by destruct (decide (k0 = k)) as [->|].
Qed.

Lemma assoc_dict_pop {V} k k' (d : list (string * V)) :
  assoc k (dict_pop k' d) = if decide (k = k') then None else assoc k d.
Proof.
  unfold dict_pop. induction d as [|[k0 v0] d IH]; simpl.
  - by case_decide.
  - rewrite filter_cons. simpl. destruct (decide (k0 ≠ k')) as [Hne|Heq]; simpl.
    + rewrite IH. destruct (decide (k = k0)) as [->|]; [by rewrite decide_False|done].
    + apply dec_stable in Heq. subst k0. rewrite IH.
      destruct (decide (k = k')); done.
Qed.

Lemma lookup_list_to_map_assoc {V} k (l : list (string * V)) :
  (list_to_map l : gmap string V) !! k = assoc k l.
Proof.
  induction l as [|[k' v] l IH]; simpl; [done|].
  destruct (decide (k = k')) as [->|Hne].
  - by rewrite lookup_insert_eq.
  - by rewrite lookup_insert_ne.
Qed.

Lemma list_to_map_dict_set {V} k (v : V) d :
  (list_to_map (dict_set k v d) : gmap string V) = <[k := v]> (list_to_map d).
Proof.
  apply map_eq. intros k'. rewrite lookup_list_to_map_assoc.
  destruct (decide (k' = k)) as [->|Hne].
  - by rewrite assoc_dict_set_eq, lookup_insert_eq.
  - by rewrite assoc_dict_set_ne, lookup_insert_ne, lookup_list_to_map_assoc.
Qed.

Lemma mapM_length {A B} (f : A → result B) (l : list A) bs :
  mapM f l = OK bs → length bs = length l.
Proof.
  revert bs. induction l as [|a l IH]; intros bs; simpl.
  - by intros [= <-].
  - destruct (f a) as [b|e]; simpl; [|done].
    destruct (mapM f l) as [bs'|e]; simpl; [|done].
    intros [= <-]. simpl. f_equal. by apply IH.
Qed.

Lemma consultar_items_gmap q ev (l : list string) acc :
  foldM (consultar q ev) (list_to_map acc) l
  = match foldM (consultar_items q ev) acc l with
    | OK items => OK (list_to_map items)
    | Raise e => Raise e
    end.
Proof.
  revert acc. induction l as [|enf l IH]; intros acc; simpl; [done|].
  unfold consultar at 1, consultar_items at 1.
  destruct (q [enf] ev) as [r|e]; simpl; [|done].
  by rewrite <- list_to_map_dict_set, IH.
Qed.

Lemma diagnosticar_con_items motor (sintomas : list (string * string)) :
  diagnosticar_con motor sintomas
  = match diagnosticar_items motor sintomas with
    | OK diagnostico => OK (list_to_map <$> diagnostico)
    | Raise e => Raise e
    end.
Proof.
  unfold diagnosticar_con, diagnosticar_cuerpo, diagnosticar_items,
    diagnosticar_items_cuerpo.
  destruct (preparar sintomas) as [st|e]; simpl; [|done].
  destruct motor as [q|e]; simpl; [|done].
  change (∅ : gmap string (list Qc)) with (list_to_map [] : gmap string (list Qc)).
  rewrite consultar_items_gmap.
  by destruct (foldM (consultar_items q st.1) [] st.2).
Qed.

Lemma consultar_items_loop q ev (l : list string) acc :
  NoDup l → (∀ k, k ∈ l → k ∉ acc.*1) →
  foldM (consultar_items q ev) acc l
  = match mapM (fun enf => q [enf] ev) l with
    | OK rs => OK (acc ++ zip l (weights <$> rs))
    | Raise e => Raise e
    end.
Proof.
  intros Hnd. revert acc. induction Hnd as [|enf l Henf Hnd IH]; intros acc Hacc; simpl.
  - by rewrite app_nil_r.
  - unfold consultar_items at 1. destruct (q [enf] ev) as [r|e]; simpl; [|done].
    rewrite keys_dict_set_new by (apply Hacc; by left).
    rewrite IH.
    + destruct (mapM _ l) as [rs|e]; simpl; [|done]. by rewrite <- app_assoc.
    + intros k Hk. rewrite fmap_app. simpl. rewrite elem_of_app, list_elem_of_singleton.
      intros [Hin| ->]; [|done]. revert Hin. apply Hacc. by right.
Qed.

Lemma diagnosticar_items_char
    (motor : result (list string → gmap string string → result Factor))
    (sintomas : list (string * string)) :
  NoDup sintomas.*1 →
  ∃ evidencias,
    diagnosticar_items motor sintomas
    = match motor with
      | Raise _ => OK None
      | OK q =>
          match mapM (fun enf => q [enf] evidencias)
                     (filter (λ v, v ∉ sintomas.*1) enfermedades_iniciales) with
          | OK rs =>
              OK (Some (zip (filter (λ v, v ∉ sintomas.*1) enfermedades_iniciales)
                            (weights <$> rs)))
          | Raise _ => OK None
          end
      end.
Proof.
  intros Hnd. destruct (preparar_OK sintomas Hnd) as (ev & enf & Hp & -> & _).
  exists ev. unfold diagnosticar_items, diagnosticar_items_cuerpo. rewrite Hp. simpl.
  destruct motor as [q|e]; simpl; [|done].
  rewrite consultar_items_loop.
  - by destruct (mapM _ _).
  - apply NoDup_filter. by apply (bool_decide_unpack _).
  - intros k _. simpl. apply not_elem_of_nil.
Qed.

(** X1. [diagnosticar_pgmpy] on a dictionary of symptoms: the evidence is
    the entries of [sintomas] under the six recognized names, unchanged;
    the variables queried are the six names that are not keys of
    [sintomas], in the order PG, Gripe, Neumonia, Tos, Fiebre,
    Dolor_cabeza; the result is the dictionary of the answers in that
    order when the engine is built and every query succeeds, and [None]
    when building the engine raises or as soon as one query raises. *)
Theorem diagnosticar_items_spec
    (motor : result (list string → gmap string string → result Factor))
    (sintomas : list (string * string)) :
  NoDup sintomas.*1 →
  ∃ evidencias,
    (∀ k, evidencias !! k
          = if decide (k ∈ reconocidas) then assoc k sintomas else None)
    ∧ diagnosticar_items motor sintomas
      = match motor with
        | Raise _ => OK None
        | OK q =>
            match mapM (fun enf => q [enf] evidencias)
                       (filter (λ v, v ∉ sintomas.*1) enfermedades_iniciales) with
            | OK rs =>
                OK (Some (zip (filter (λ v, v ∉ sintomas.*1) enfermedades_iniciales)
                              (weights <$> rs)))
            | Raise _ => OK None
            end
        end.
Proof.
  intros Hnd. destruct (preparar_OK sintomas Hnd) as (ev & enf & Hp & -> & Hev).
  exists ev. split; [done|].
  unfold diagnosticar_items, diagnosticar_items_cuerpo. rewrite Hp. simpl.
  destruct motor as [q|e]; simpl; [|done].
  rewrite consultar_items_loop.
  - by destruct (mapM _ _).
  - apply NoDup_filter. by apply (bool_decide_unpack _).
  - intros k _. simpl. apply not_elem_of_nil.
Qed.

Lemma diagnosticar_items_spec_witness :
  NoDup [("Fiebre", "Sí"); ("Edad", "40")].*1
  ∧ ∃ evidencias : gmap string string,
      (∀ k, evidencias !! k
            = if decide (k ∈ reconocidas)
              then assoc k [("Fiebre", "Sí"); ("Edad", "40")] else None)
      ∧ diagnosticar_items (OK (query modelo)) [("Fiebre", "Sí"); ("Edad", "40")]
        = match mapM (fun enf => query modelo [enf] evidencias)
                     (filter (λ v, v ∉ [("Fiebre", "Sí"); ("Edad", "40")].*1)
                             enfermedades_iniciales) with
          | OK rs =>
              OK (Some (zip (filter (λ v, v ∉ [("Fiebre", "Sí"); ("Edad", "40")].*1)
                                    enfermedades_iniciales)
                            (weights <$> rs)))
          | Raise _ => OK None
          end.
Proof.
  assert (H : NoDup [("Fiebre", "Sí"); ("Edad", "40")].*1)
    by (apply (bool_decide_unpack _); vm_compute; reflexivity).
  split; [exact H|].
  exact (diagnosticar_items_spec (OK (query modelo)) _ H).
Defined.

Lemma not_in_keys_assoc {V} k (l : list (string * V)) :
  k ∉ l.*1 ↔ assoc k l = None.
Proof.
  split; [apply assoc_None|]. intros Hn Hk. apply assoc_is_Some in Hk as [v Hv].
  congruence.
Qed.

(** X2. [diagnosticar_pgmpy] reads only the entries of [sintomas] under
    the six variable names: two dictionaries that agree on them give the
    same evidence, the same variables to query and the same diagnosis,
    whatever the engine does; any other key is skipped without an error. *)
Theorem pgmpy_other_keys_ignored
    (motor : result (list string → gmap string string → result Factor))
    (s1 s2 : list (string * string)) :
  NoDup s1.*1 → NoDup s2.*1 →
  (∀ k, k ∈ reconocidas → assoc k s1 = assoc k s2) →
  preparar s1 = preparar s2
  ∧ diagnosticar_items motor s1 = diagnosticar_items motor s2
  ∧ diagnosticar_con motor s1 = diagnosticar_con motor s2.
Proof.
  intros H1 H2 Hagree.
  assert (Hp : preparar s1 = preparar s2).
  { destruct (preparar_OK s1 H1) as (ev1 & enf1 & -> & -> & Hev1).
    destruct (preparar_OK s2 H2) as (ev2 & enf2 & -> & -> & Hev2).
    f_equal. f_equal.
    - apply map_eq. intros k. rewrite Hev1, Hev2. case_decide; [by apply Hagree|done].
    - apply filter_iff_in. intros v Hv. rewrite !not_in_keys_assoc.
      rewrite Hagree; [done|]. revert v Hv. apply Forall_forall.
      by apply (bool_decide_unpack _). }
  split; [done|].
  assert (Hi : diagnosticar_items motor s1 = diagnosticar_items motor s2).
  { unfold diagnosticar_items, diagnosticar_items_cuerpo. by rewrite Hp. }
  split; [done|]. by rewrite !diagnosticar_con_items, Hi.
Qed.

Lemma pgmpy_other_keys_ignored_witness :
  NoDup [("Edad", "40"); ("Tos", "Sí"); ("Gripe", "Sí")].*1
  ∧ NoDup [("Gripe", "Sí"); ("Tos", "Sí")].*1
  ∧ diagnosticar_items (VariableElimination modelo)
      [("Edad", "40"); ("Tos", "Sí"); ("Gripe", "Sí")]
    = diagnosticar_items (VariableElimination modelo) [("Gripe", "Sí"); ("Tos", "Sí")].
Proof.
  assert (H1 : NoDup [("Edad", "40"); ("Tos", "Sí"); ("Gripe", "Sí")].*1)
    by (apply (bool_decide_unpack _); vm_compute; reflexivity).
  assert (H2 : NoDup [("Gripe", "Sí"); ("Tos", "Sí")].*1)
    by (apply (bool_decide_unpack _); vm_compute; reflexivity).
  split; [exact H1|]. split; [exact H2|].
  refine (proj1 (proj2 (pgmpy_other_keys_ignored (VariableElimination modelo)
                          _ _ H1 H2 _))).
  intros k Hk. apply (bool_decide_unpack _). revert k Hk.
  apply Forall_forall. apply (bool_decide_unpack _). vm_compute. reflexivity.
Defined.

(** X3. When [sintomas] has all six variables as keys, nothing is left
    to query: [diagnosticar_pgmpy] still builds the engine, and returns
    the empty dictionary if that succeeds and [None] if it raises; no
    query is issued, so the empty dictionary is returned even for an
    engine that would fail on every query. *)
Theorem pgmpy_all_observed
    (motor : result (list string → gmap string string → result Factor))
    (sintomas : list (string * string)) :
  NoDup sintomas.*1 →
  (∀ k, k ∈ enfermedades_iniciales → k ∈ sintomas.*1) →
  diagnosticar_items motor sintomas
  = OK (match motor with OK _ => Some [] | Raise _ => None end)
  ∧ diagnosticar_con motor sintomas
    = OK (match motor with OK _ => Some ∅ | Raise _ => None end).
Proof.
  intros Hnd Hall.
  assert (Hi : diagnosticar_items motor sintomas
               = OK (match motor with OK _ => Some [] | Raise _ => None end)).
  { destruct (diagnosticar_items_char motor sintomas Hnd) as (ev & ->).
    destruct motor as [q|e]; [|done].
    assert (Hf : filter (λ v, v ∉ sintomas.*1) enfermedades_iniciales = []).
    { destruct (filter _ _) as [|v l] eqn:Hf; [done|].
      assert (Hv : v ∈ filter (λ v, v ∉ sintomas.*1) enfermedades_iniciales)
        by (rewrite Hf; left).
      apply list_elem_of_filter in Hv as [Hn Hv]. by apply Hall in Hv. }
    by rewrite Hf. }
  split; [done|]. rewrite diagnosticar_con_items, Hi. by destruct motor.
Qed.

Lemma pgmpy_all_observed_witness :
  diagnosticar_items (OK (fun _ _ => @Raise Factor DegenerateFactorError))
    [("PG", "Alta"); ("Gripe", "Sí"); ("Neumonia", "No"); ("Tos", "Sí");
     ("Fiebre", "Sí"); ("Dolor_cabeza", "No")] = OK (Some [])
  ∧ diagnosticar_items (Raise ValueError)
      [("PG", "Alta"); ("Gripe", "Sí"); ("Neumonia", "No"); ("Tos", "Sí");
       ("Fiebre", "Sí"); ("Dolor_cabeza", "No")] = OK None.
Proof.
  assert (Hnd : NoDup [("PG", "Alta"); ("Gripe", "Sí"); ("Neumonia", "No");
                       ("Tos", "Sí"); ("Fiebre", "Sí"); ("Dolor_cabeza", "No")].*1)
    by (apply (bool_decide_unpack _); vm_compute; reflexivity).
  assert (Hall : ∀ k, k ∈ enfermedades_iniciales →
                      k ∈ [("PG", "Alta"); ("Gripe", "Sí"); ("Neumonia", "No");
                           ("Tos", "Sí"); ("Fiebre", "Sí"); ("Dolor_cabeza", "No")].*1).
  { apply Forall_forall. apply (bool_decide_unpack _). vm_compute. reflexivity. }
  split.
  - exact (proj1 (pgmpy_all_observed
                    (OK (fun _ _ => @Raise Factor DegenerateFactorError)) _ Hnd Hall)).
  - exact (proj1 (pgmpy_all_observed (Raise ValueError) _ Hnd Hall)).
Defined.

Lemma mostrar_items_error fmt3 (items : list (string * list Qc))
    (ep : list (string * list string)) :
  (Consola.mostrar_items fmt3 items ep).2
  = Consola.KeyError <$> head (filter (λ k, assoc k ep = None) items.*1).
Proof.
  induction items as [|[enf probs] items IH]; [done|].
  cbn [Consola.mostrar_items fmap list_fmap fst]. rewrite filter_cons.
  destruct (assoc enf ep) as [estados|] eqn:He.
  - rewrite decide_False by done. exact IH.
  - by rewrite decide_True by done.
Qed.

Lemma mostrar_items_lines fmt3 (items : list (string * list Qc))
    (ep : list (string * list string)) :
  Forall (λ kv, is_Some (assoc kv.1 ep)) items →
  (Consola.mostrar_items fmt3 items ep).1
  = flat_map (fun kv => (Consola.nl +:+ kv.1 +:+ ":")
                        :: Consola.lineas_estados fmt3 (default [] (assoc kv.1 ep)) kv.2)
             items.
Proof.
  induction 1 as [|[enf probs] items [estados He] _ IH]; [done|].
  simpl in He. cbn [Consola.mostrar_items flat_map fst snd]. rewrite He. simpl.
  by rewrite IH.
Qed.

(** X4. [mostrar_diagnostico_pgmpy] ends normally exactly when
    [diagnostico] is a dictionary all of whose keys are keys of
    [estados_posibles]: on [None] it raises [AttributeError] (after the
    header), and otherwise it raises [KeyError] for the first key of
    [diagnostico], in insertion order, that [estados_posibles] lacks. *)
Theorem mostrar_pgmpy_exception (fmt3 : Qc → string)
    (diagnostico : option (list (string * list Qc)))
    (ep : list (string * list string)) :
  (Consola.mostrar_diagnostico_pgmpy fmt3 diagnostico ep).2
  = match diagnostico with
    | None => Some Consola.AttributeError
    | Some items =>
        Consola.KeyError <$> head (filter (λ k, assoc k ep = None) items.*1)
    end.
Proof.
  destruct diagnostico as [items|]; [|done].
  unfold Consola.mostrar_diagnostico_pgmpy. cbn [snd]. apply mostrar_items_error.
Qed.

(** X5. When every key of [diagnostico] is a key of [estados_posibles],
    [mostrar_diagnostico_pgmpy] prints the header and, for each variable
    in insertion order, its name and then one line per pair of
    [zip(estados, probs)]: as many lines as the shorter of the two lists,
    the surplus of the longer one being dropped without an error. *)
Theorem mostrar_pgmpy_complete (fmt3 : Qc → string)
    (items : list (string * list Qc)) (ep : list (string * list string)) :
  Forall (λ kv, is_Some (assoc kv.1 ep)) items →
  Consola.mostrar_diagnostico_pgmpy fmt3 (Some items) ep
  = (Consola.cabecera
       :: flat_map (fun kv =>
            (Consola.nl +:+ kv.1 +:+ ":")
              :: Consola.lineas_estados fmt3 (default [] (assoc kv.1 ep)) kv.2)
          items,
     None)
  ∧ length (Consola.mostrar_diagnostico_pgmpy fmt3 (Some items) ep).1
    = S (sum_list_with
           (fun kv => S (length (default [] (assoc kv.1 ep)) `min` length kv.2))
           items).
Proof.
  intros Hall.
  assert (He : (Consola.mostrar_items fmt3 items ep).2 = None).
  { rewrite mostrar_items_error.
    assert (Hf : filter (λ k, assoc k ep = None) items.*1 = []); [|by rewrite Hf].
    clear -Hall. induction Hall as [|[k v] items [x Hx] _ IH]; [done|].
    simpl in Hx. cbn [fmap list_fmap fst]. rewrite filter_cons.
    rewrite decide_False by (rewrite Hx; done). exact IH. }
  assert (Hl := mostrar_items_lines fmt3 items ep Hall).
  unfold Consola.mostrar_diagnostico_pgmpy. rewrite He, Hl. split; [done|].
  cbn [fst length]. f_equal. clear. induction items as [|[k v] items IH]; [done|].
  cbn [flat_map sum_list_with]. rewrite length_app, IH. cbn [length]. f_equal. f_equal.
  unfold Consola.lineas_estados. rewrite length_map, length_zip_with. done.
Qed.

Lemma mostrar_pgmpy_complete_witness :
  Forall (λ kv : string * list Qc, is_Some (assoc kv.1 Consola.estados_posibles))
         [("Gripe", [dec 0.25; dec 0.5; dec 0.25])]
  ∧ length (Consola.mostrar_diagnostico_pgmpy (fun _ => "")
              (Some [("Gripe", [dec 0.25; dec 0.5; dec 0.25])])
              Consola.estados_posibles).1 = 4%nat.
Proof.
  assert (H : Forall (λ kv : string * list Qc,
                        is_Some (assoc kv.1 Consola.estados_posibles))
                     [("Gripe", [dec 0.25; dec 0.5; dec 0.25])])
    by (apply (bool_decide_unpack _); vm_compute; reflexivity).
  split; [exact H|].
  exact (proj2 (mostrar_pgmpy_complete (fun _ => "") _ _ H)).
Defined.

Lemma diagnosticar_mostrar fmt3 motor (sintomas : list (string * string))
    (ep : list (string * list string)) :
  NoDup sintomas.*1 →
  ∃ diagnostico,
    diagnosticar_items motor sintomas = OK diagnostico
    ∧ (Consola.mostrar_diagnostico_pgmpy fmt3 diagnostico ep).2
      = match diagnostico with
        | None => Some Consola.AttributeError
        | Some _ =>
            Consola.KeyError
              <$> head (filter (λ k, assoc k ep = None)
                          (filter (λ v, v ∉ sintomas.*1) enfermedades_iniciales))
        end.
Proof.
  intros Hnd. destruct (diagnosticar_items_char motor sintomas Hnd) as (ev & ->).
  destruct motor as [q|e]; [|by eexists].
  destruct (mapM _ _) as [rs|e] eqn:Hm.
  - eexists. split; [done|]. unfold Consola.mostrar_diagnostico_pgmpy. cbn [snd].
    rewrite mostrar_items_error. rewrite fst_zip; [done|]. apply mapM_length in Hm. rewrite length_fmap. lia.
  - eexists. split; [done|]. done.
Qed.

(** X6. The two calls of [main] in the pgmpy script,
    [diag = diagnosticar_pgmpy(modelo, sintomas)] and then
    [mostrar_diagnostico_pgmpy(diag, estados_posibles)], whatever the
    engine (and whether or not it can be built): a failure that
    [diagnosticar_pgmpy] swallowed comes back as
    [AttributeError] in the display; and when the diagnosis succeeds, the
    display raises [KeyError] for the first of PG, Gripe, Neumonia, Tos,
    Fiebre, Dolor_cabeza that is neither a key of [sintomas] nor a key of
    [estados_posibles]. *)
Theorem pgmpy_diagnose_then_show (fmt3 : Qc → string)
    (motor : result (list string → gmap string string → result Factor))
    (sintomas : list (string * string)) (ep : list (string * list string)) :
  NoDup sintomas.*1 →
  ∃ diagnostico,
    diagnosticar_items motor sintomas = OK diagnostico
    ∧ (Consola.mostrar_diagnostico_pgmpy fmt3 diagnostico ep).2
      = match diagnostico with
        | None => Some Consola.AttributeError
        | Some _ =>
            Consola.KeyError
              <$> head (filter (λ k, (k ∉ sintomas.*1) ∧ (assoc k ep = None))
                               enfermedades_iniciales)
        end.
Proof.
  intros Hnd.
  destruct (diagnosticar_mostrar fmt3 motor sintomas ep Hnd) as (d & Hd & Hs).
  exists d. split; [done|]. rewrite Hs. destruct d; [|done].
  rewrite list_filter_filter. do 2 f_equal. apply filter_iff_in. tauto.
Qed.

Lemma pgmpy_diagnose_then_show_witness :
  NoDup [("Tos", "Sí"); ("Gripe", "Sí")].*1
  ∧ ∃ diagnostico,
      diagnosticar_items (VariableElimination modelo) [("Tos", "Sí"); ("Gripe", "Sí")]
      = OK diagnostico
      ∧ (Consola.mostrar_diagnostico_pgmpy (fun _ => "") diagnostico
           [("PG", ["Alta"; "Media"; "Baja"]); ("Neumonia", ["Sí"; "No"]);
            ("Fiebre", ["Sí"; "No"]); ("Dolor_cabeza", ["Sí"; "No"])]).2
        = match diagnostico with
          | None => Some Consola.AttributeError
          | Some _ =>
              Consola.KeyError
                <$> head (filter
                      (λ k, (k ∉ [("Tos", "Sí"); ("Gripe", "Sí")].*1)
                            ∧ (assoc k [("PG", ["Alta"; "Media"; "Baja"]);
                                        ("Neumonia", ["Sí"; "No"]);
                                        ("Fiebre", ["Sí"; "No"]);
                                        ("Dolor_cabeza", ["Sí"; "No"])] = None))
                      enfermedades_iniciales)
          end.
Proof.
  assert (H : NoDup [("Tos", "Sí"); ("Gripe", "Sí")].*1)
    by (apply (bool_decide_unpack _); vm_compute; reflexivity).
  split; [exact H|].
  exact (pgmpy_diagnose_then_show (fun _ => "") (VariableElimination modelo) _ _ H).
Defined.

Lemma assoc_elem_of {V} k (v : V) (l : list (string * V)) :
  assoc k l = Some v → (k, v) ∈ l.
Proof.
  induction l as [|[k' v'] l IH]; simpl; [done|].
  case_decide; [intros [= ->]; subst; by left|]. intros H'. right. by apply IH.
Qed.

Lemma leer_sintomas_eq limpiar respuestas :
  Consola.leer_sintomas limpiar respuestas
  = (fun k => (k, limpiar (respuestas k)))
      <$> filter (λ k, limpiar (respuestas k) ∈ ["Sí"; "No"])
                 ["Fiebre"; "Tos"; "Dolor_cabeza"].
Proof.
  unfold Consola.leer_sintomas, Consola.anotar_respuesta. cbn [foldl].
  rewrite !filter_cons, filter_nil.
  destruct (decide (limpiar (respuestas "Fiebre") ∈ ["Sí"; "No"]));
    destruct (decide (limpiar (respuestas "Tos") ∈ ["Sí"; "No"]));
    destruct (decide (limpiar (respuestas "Dolor_cabeza") ∈ ["Sí"; "No"]));
    reflexivity.
Qed.

Lemma leer_sintomas_keys limpiar respuestas :
  (Consola.leer_sintomas limpiar respuestas).*1
  = filter (λ k, limpiar (respuestas k) ∈ ["Sí"; "No"])
           ["Fiebre"; "Tos"; "Dolor_cabeza"].
Proof.
  rewrite leer_sintomas_eq, <- list_fmap_compose. apply list_fmap_id.
Qed.

Lemma leer_sintomas_NoDup limpiar respuestas :
  NoDup (Consola.leer_sintomas limpiar respuestas).*1.
Proof.
  rewrite leer_sintomas_keys. apply NoDup_filter. by apply (bool_decide_unpack _).
Qed.

(** X7. The input loop of the interactive mode (pgmpy and pomegranate
    scripts): [sintomas] gets, in the order Fiebre, Tos, Dolor_cabeza, the
    cleaned answer of each symptom whose cleaned answer is 'Sí' or 'No',
    and nothing else. So the evidence both diagnosis functions build from
    it is the same mapping, holds only symptoms with the labels 'Sí' and
    'No', and an answer that is anything else leaves its symptom
    unobserved instead of being passed on. *)
Theorem interactive_symptoms (limpiar respuestas : string → string) :
  Consola.leer_sintomas limpiar respuestas
  = (fun k => (k, limpiar (respuestas k)))
      <$> filter (λ k, limpiar (respuestas k) ∈ ["Sí"; "No"])
                 ["Fiebre"; "Tos"; "Dolor_cabeza"]
  ∧ NoDup (Consola.leer_sintomas limpiar respuestas).*1
  ∧ ∃ evidencias enfermedades,
      preparar (Consola.leer_sintomas limpiar respuestas)
      = OK (evidencias, enfermedades)
      ∧ Pomegranate.preparar (Consola.leer_sintomas limpiar respuestas)
        = evidencias
      ∧ evidencia_de_sintomas evidencias
      ∧ ∀ k, evidencias !! k
             = if decide (k ∈ ["Fiebre"; "Tos"; "Dolor_cabeza"]
                          ∧ limpiar (respuestas k) ∈ ["Sí"; "No"])
               then Some (limpiar (respuestas k)) else None.
Proof.
  split; [apply leer_sintomas_eq|]. split; [apply leer_sintomas_NoDup|].
  set (s := Consola.leer_sintomas limpiar respuestas).
  assert (Hnd : NoDup s.*1) by apply leer_sintomas_NoDup.
  assert (Hs : ∀ k, assoc k s
                    = if decide (k ∈ ["Fiebre"; "Tos"; "Dolor_cabeza"]
                                 ∧ limpiar (respuestas k) ∈ ["Sí"; "No"])
                      then Some (limpiar (respuestas k)) else None).
  { intros k. case_decide as Hk.
    - assert (Hin : k ∈ s.*1).
      { unfold s. rewrite leer_sintomas_keys. apply list_elem_of_filter. tauto. }
      apply assoc_is_Some in Hin as [v Hv]. rewrite Hv. f_equal.
      apply assoc_elem_of in Hv. unfold s in Hv. rewrite leer_sintomas_eq in Hv.
      apply list_elem_of_fmap in Hv as (k' & [= -> ->] & _). done.
    - apply assoc_None. unfold s. rewrite leer_sintomas_keys.
      rewrite list_elem_of_filter. tauto. }
  destruct (preparar_OK s Hnd) as (ev & enf & Hp & _ & Hev).
  assert (Hsub : ∀ k, k ∈ ["Fiebre"; "Tos"; "Dolor_cabeza"] → k ∈ reconocidas).
  { apply Forall_forall. by apply (bool_decide_unpack _). }
  assert (Hev' : ∀ k, ev !! k = assoc k s).
  { intros k. rewrite Hev. case_decide as Hr; [done|]. rewrite Hs.
    rewrite decide_False; [done|]. intros [Hk _]. by apply Hr, Hsub. }
  exists ev, enf. split; [done|]. split; [|split].
  - apply map_eq. intros k. rewrite pomegranate_preparar_lookup by done.
    rewrite Hev'. case_decide as Hr; [done|]. rewrite Hs.
    rewrite decide_False; [done|]. intros [Hk _]. by apply Hr.
  - intros k label. rewrite Hev', Hs. case_decide as Hk; [|done].
    intros [= <-]. exact Hk.
  - intros k. by rewrite Hev'.
Qed.

(** X8. The end of the interactive mode of the pgmpy script. When no
    symptom got a valid answer, [sintomas] is empty, neither function is
    called and only the notice is printed. Otherwise the diagnosis is
    shown with an [estados_posibles] that has only PG, Gripe and
    Neumonia, so the display ends normally only when the diagnosis is not
    [None] and all three symptoms got a valid answer: with a symptom left
    out, [diagnosticar_pgmpy] also returns that symptom's distribution
    and [mostrar_diagnostico_pgmpy] raises [KeyError] for the first of
    Tos, Fiebre, Dolor_cabeza without a valid answer; and a diagnosis
    that is [None] makes it raise [AttributeError]. *)
Theorem interactive_pgmpy_display (fmt3 : Qc → string)
    (str_e : ErrorKind → string)
    (motor : result (list string → gmap string string → result Factor))
    (limpiar respuestas : string → string) :
  (Consola.leer_sintomas limpiar respuestas = []
   ↔ Forall (λ k, limpiar (respuestas k) ∉ ["Sí"; "No"])
            ["Fiebre"; "Tos"; "Dolor_cabeza"])
  ∧ (Consola.leer_sintomas limpiar respuestas = [] →
     Consola.diagnosticar_y_mostrar fmt3 str_e motor
       (Consola.leer_sintomas limpiar respuestas)
     = (["No se ingresaron síntomas válidos"], None))
  ∧ (Consola.leer_sintomas limpiar respuestas ≠ [] →
     ∃ diagnostico,
       diagnosticar_items motor (Consola.leer_sintomas limpiar respuestas)
       = OK diagnostico
       ∧ (Consola.diagnosticar_y_mostrar fmt3 str_e motor
            (Consola.leer_sintomas limpiar respuestas)).2
         = match diagnostico with
           | None => Some Consola.AttributeError
           | Some _ =>
               Consola.KeyError
                 <$> head (filter (λ k, limpiar (respuestas k) ∉ ["Sí"; "No"])
                                  ["Tos"; "Fiebre"; "Dolor_cabeza"])
           end).
Proof.
  split; [|split].
  - split.
    + intros He. apply Forall_forall. intros k Hk Hv.
      assert (Hin : k ∈ (Consola.leer_sintomas limpiar respuestas).*1).
      { rewrite leer_sintomas_keys. by apply list_elem_of_filter. }
      rewrite He in Hin. by apply elem_of_nil in Hin.
    + intros Hall. rewrite Forall_forall in Hall.
      apply (fmap_nil_inv fst). rewrite leer_sintomas_keys.
      destruct (filter _ _) as [|k l] eqn:Hf; [done|].
      assert (Hk : k ∈ filter (λ k, limpiar (respuestas k) ∈ ["Sí"; "No"])
                              ["Fiebre"; "Tos"; "Dolor_cabeza"])
        by (rewrite Hf; left).
      apply list_elem_of_filter in Hk as [Hv Hk]. by apply Hall in Hk.
  - intros He. unfold Consola.diagnosticar_y_mostrar. by rewrite decide_True.
  - intros Hne.
    destruct (diagnosticar_mostrar fmt3 motor _ Consola.estados_posibles
                (leer_sintomas_NoDup limpiar respuestas)) as (d & Hd & Hs).
    exists d. split; [done|].
    unfold Consola.diagnosticar_y_mostrar. rewrite decide_False by done.
    unfold diagnosticar_items in Hd.
    destruct (diagnosticar_items_cuerpo motor _) as [d0|e];
      injection Hd as <-; [|done].
    rewrite Hs. do 2 f_equal.
    assert (Hc : ∀ k, k ∈ enfermedades_iniciales →
                      assoc k Consola.estados_posibles = None
                      ↔ k ∈ ["Tos"; "Fiebre"; "Dolor_cabeza"]).
    { apply Forall_forall. apply (bool_decide_unpack _). vm_compute. reflexivity. }
    assert (Hsub : ∀ k, k ∈ ["Tos"; "Fiebre"; "Dolor_cabeza"]
                        → k ∈ ["Fiebre"; "Tos"; "Dolor_cabeza"]).
    { apply Forall_forall. by apply (bool_decide_unpack _). }
    rewrite list_filter_filter.
    change ["Tos"; "Fiebre"; "Dolor_cabeza"]
      with (filter (λ k, k ∈ ["Tos"; "Fiebre"; "Dolor_cabeza"]) enfermedades_iniciales)
      at 1.
    rewrite list_filter_filter. apply filter_iff_in. intros k Hk.
    rewrite leer_sintomas_keys, list_elem_of_filter, (Hc k Hk). split.
    + intros [Hin Hn]. split; [|done]. intros Hv. apply Hn. split; [done|].
      by apply Hsub.
    + intros [Hn Hin]. split; [done|]. intros [Hv _]. done.
Qed.

(** X9. The pomegranate script: [diag = diagnosticar(modelo, sintomas)]
    followed by [mostrar_diagnostico(diag)], whatever [predict_proba]
    does. The diagnosis is a dictionary exactly when [predict_proba]
    returns a list whose first three entries are distributions with a
    parameter table; it then has the keys PG, Gripe, Neumonia in this
    order and the display prints the header, the three names and one line
    per state without raising. In every other case the diagnosis is
    [None] and the display raises [AttributeError] after the header. *)
Theorem pomegranate_diagnose_then_show (fmt3 : Qc → string)
    (predict_proba : gmap string string → result (list Pomegranate.prediction))
    (sintomas : list (string * string)) :
  ∃ diagnostico,
    Pomegranate.diagnosticar predict_proba sintomas = OK diagnostico
    ∧ (is_Some diagnostico
       ↔ ∃ r, predict_proba (Pomegranate.preparar sintomas) = OK r
              ∧ ∀ i, (i < 3)%nat →
                     ∃ d ds, r !! i = Some (Pomegranate.Distribution (d :: ds)))
    ∧ match diagnostico with
      | Some items =>
          items.*1 = ["PG"; "Gripe"; "Neumonia"]
          ∧ (Consola.mostrar_diagnostico fmt3 diagnostico).2 = None
          ∧ length (Consola.mostrar_diagnostico fmt3 diagnostico).1
            = (4 + sum_list_with (fun kv => length kv.2) items)%nat
      | None =>
          Consola.mostrar_diagnostico fmt3 diagnostico
          = ([Consola.cabecera], Some Consola.AttributeError)
      end.
Proof.
  unfold Pomegranate.diagnosticar, Pomegranate.diagnosticar_cuerpo.
  destruct (predict_proba (Pomegranate.preparar sintomas)) as [r|e]; simpl.
  2:{ eexists. split; [done|]. split; [|done]. split; [by intros [? ?]|].
      by intros (r & ? & _). }
  assert (Hp : ∀ i, match Pomegranate.parameters0 r i with
                    | OK d => ∃ ds, r !! i = Some (Pomegranate.Distribution (d :: ds))
                    | Raise _ => ¬ ∃ d ds, r !! i = Some (Pomegranate.Distribution (d :: ds))
                    end).
  { intros i. unfold Pomegranate.parameters0.
    destruct (r !! i) as [[l|[|d ds]]|]; try (by intros (? & ? & ?)). by eexists. }
  assert (H0 := Hp 0%nat). assert (H1 := Hp 1%nat). assert (H2 := Hp 2%nat).
  destruct (Pomegranate.parameters0 r 0) as [d0|e0]; simpl.
  2:{ eexists. split; [done|]. split; [|done]. split; [by intros [? ?]|].
      intros (r' & [= <-] & Hr). exfalso. apply H0, Hr. lia. }
  destruct (Pomegranate.parameters0 r 1) as [d1|e1]; simpl.
  2:{ eexists. split; [done|]. split; [|done]. split; [by intros [? ?]|].
      intros (r' & [= <-] & Hr). exfalso. apply H1, Hr. lia. }
  destruct (Pomegranate.parameters0 r 2) as [d2|e2]; simpl.
  2:{ eexists. split; [done|]. split; [|done]. split; [by intros [? ?]|].
      intros (r' & [= <-] & Hr). exfalso. apply H2, Hr. lia. }
  eexists. split; [done|]. split.
  - split; [|by eexists]. intros _. exists r. split; [done|].
    intros [|[|[|i]]] Hi; [by eexists|by eexists|by eexists|lia].
  - split; [done|]. split; [done|].
    unfold Consola.mostrar_diagnostico, Consola.lineas_prob.
    cbn [fst snd flat_map sum_list_with length app].
    rewrite app_nil_r. repeat (rewrite ?length_app, ?length_map; cbn [length]).
    lia.
Qed.

Lemma observado_assoc (d : list (string * nat)) k :
  Muestreo.observado (Some d) k = assoc k d.
Proof.
  unfold Muestreo.observado. destruct d as [|kv d]; [done|].
  rewrite bool_decide_true by done. simpl andb.
  destruct (decide (k ∈ (kv :: d).*1)) as [Hk|Hk].
  - by rewrite bool_decide_true.
  - rewrite bool_decide_false by done. symmetry. by apply assoc_None.
Qed.

Lemma convertir_codigo lower st (item : string * string) :
  Muestreo.convertir lower st item
  = match Muestreo.codigo lower item.2 with
    | Some c => (dict_set item.1 c st.1, dict_pop item.1 st.2)
    | None => st
    end.
Proof.
  unfold Muestreo.convertir, Muestreo.codigo.
  destruct (Muestreo.afirmativa lower item.2); [done|].
  by destruct (Muestreo.negativa lower item.2).
Qed.

Lemma convertir_loop lower (l : list (string * string)) num0 vp0 :
  NoDup l.*1 →
  (∀ k, assoc k (foldl (Muestreo.convertir lower) (num0, vp0) l).1
        = match assoc k l ≫= Muestreo.codigo lower with
          | Some c => Some c
          | None => assoc k num0
          end)
  ∧ (foldl (Muestreo.convertir lower) (num0, vp0) l).2
    = filter (λ kv, assoc kv.1 l ≫= Muestreo.codigo lower = None) vp0.
Proof.
  revert num0 vp0. induction l as [|[k0 v0] l IH]; intros num0 vp0 Hnd.
  - split; [done|]. simpl. symmetry. by apply filter_all.
  - simpl in Hnd. apply NoDup_cons in Hnd as [Hk0 Hnd]. cbn [foldl].
    rewrite convertir_codigo. cbn [fst snd].
    destruct (Muestreo.codigo lower v0) as [c|] eqn:Hc.
    + destruct (IH (dict_set k0 c num0) (dict_pop k0 vp0) Hnd) as [IH1 IH2].
      split.
      * intros k. rewrite IH1. simpl. destruct (decide (k = k0)) as [->|Hne].
        -- rewrite assoc_None by done. simpl. rewrite Hc. apply assoc_dict_set_eq.
        -- by rewrite assoc_dict_set_ne.
      * rewrite IH2. unfold dict_pop. rewrite list_filter_filter.
        apply filter_iff_in. intros [k x] _. simpl.
        destruct (decide (k = k0)) as [->|Hne]; simpl; [rewrite Hc|tauto].
        split; [by intros [_ ?]|done].
    + destruct (IH num0 vp0 Hnd) as [IH1 IH2]. split.
      * intros k. rewrite IH1. simpl. destruct (decide (k = k0)) as [->|Hne]; [|done].
        rewrite assoc_None by done. simpl. by rewrite Hc.
      * rewrite IH2. apply filter_iff_in. intros [k x] _. simpl.
        destruct (decide (k = k0)) as [->|Hne]; [|done].
        rewrite assoc_None by done. simpl. by rewrite Hc.
Qed.

Lemma muestreo_preparar_spec lower (sintomas : list (string * string)) :
  NoDup sintomas.*1 →
  (∀ k, assoc k (Muestreo.preparar lower sintomas).1
        = assoc k sintomas ≫= Muestreo.codigo lower)
  ∧ (Muestreo.preparar lower sintomas).2
    = filter (λ kv, assoc kv.1 sintomas ≫= Muestreo.codigo lower = None)
             PyMC.valores_posibles.
Proof.
  intros Hnd. destruct (convertir_loop lower sintomas [] PyMC.valores_posibles Hnd)
    as [H1 H2].
  split; [|exact H2]. intros k. unfold Muestreo.preparar. rewrite H1.
  by destruct (assoc k sintomas ≫= Muestreo.codigo lower).
Qed.

(** X10. [diagnosticar] of the PyMC script hands the model only the
    symptoms: the model it builds observes Fiebre, Tos and Dolor_cabeza
    with the number of their answer (1 for 'sí', 'si', 's', 0 for 'no',
    'n', after lower-casing) and leaves them free when the answer is
    missing or not one of these forms. The variables it reports are
    those of the six whose entry in [sintomas] is missing or unrecognized,
    in the order of [valores_posibles], and no reported variable is an
    observed one. *)
Theorem pymc_evidence (lower : string → string)
    (sintomas : list (string * string)) :
  NoDup sintomas.*1 →
  Muestreo.crear_modelo_bayesiano (Some (Muestreo.preparar lower sintomas).1)
  = Muestreo.mkModelo (assoc "Fiebre" sintomas ≫= Muestreo.codigo lower)
                      (assoc "Tos" sintomas ≫= Muestreo.codigo lower)
                      (assoc "Dolor_cabeza" sintomas ≫= Muestreo.codigo lower)
  ∧ (Muestreo.preparar lower sintomas).2
    = filter (λ kv, assoc kv.1 sintomas ≫= Muestreo.codigo lower = None)
             PyMC.valores_posibles
  ∧ ∀ k, is_Some (Muestreo.observado (Some (Muestreo.preparar lower sintomas).1) k)
         → k ∉ (Muestreo.preparar lower sintomas).2.*1.
Proof.
  intros Hnd. destruct (muestreo_preparar_spec lower sintomas Hnd) as [H1 H2].
  split; [|split; [exact H2|]].
  - unfold Muestreo.crear_modelo_bayesiano. by rewrite !observado_assoc, !H1.
  - intros k. rewrite observado_assoc, H1, H2. intros [c Hc] Hin.
    apply list_elem_of_fmap in Hin as ([k' x] & -> & Hin).
    apply list_elem_of_filter in Hin as [Hn _]. simpl in *. congruence.
Qed.

Lemma pymc_evidence_witness :
  NoDup [("Tos", "Sí"); ("Gripe", "Sí")].*1
  ∧ Muestreo.crear_modelo_bayesiano
      (Some (Muestreo.preparar minusculas [("Tos", "Sí"); ("Gripe", "Sí")]).1)
    = Muestreo.mkModelo
        (assoc "Fiebre" [("Tos", "Sí"); ("Gripe", "Sí")] ≫= Muestreo.codigo minusculas)
        (assoc "Tos" [("Tos", "Sí"); ("Gripe", "Sí")] ≫= Muestreo.codigo minusculas)
        (assoc "Dolor_cabeza" [("Tos", "Sí"); ("Gripe", "Sí")]
           ≫= Muestreo.codigo minusculas).
Proof.
  assert (H : NoDup [("Tos", "Sí"); ("Gripe", "Sí")].*1)
    by (apply (bool_decide_unpack _); vm_compute; reflexivity).
  split; [exact H|].
  exact (proj1 (pymc_evidence minusculas _ H)).
Defined.

(** X11. In the PyMC script a recognized answer under a name other than
    the three symptoms (the 'Gripe' of Caso 2) never reaches the model:
    the model built is the one built without that entry, so the sampler
    is not conditioned on it; yet the variable is taken out of the
    results. *)
Theorem pymc_non_symptom_evidence_lost (lower : string → string)
    (sintomas : list (string * string)) (k v : string) :
  NoDup sintomas.*1 →
  k ∉ ["Fiebre"; "Tos"; "Dolor_cabeza"] →
  assoc k sintomas = Some v →
  is_Some (Muestreo.codigo lower v) →
  Muestreo.crear_modelo_bayesiano (Some (Muestreo.preparar lower sintomas).1)
  = Muestreo.crear_modelo_bayesiano
      (Some (Muestreo.preparar lower (dict_pop k sintomas)).1)
  ∧ k ∉ (Muestreo.preparar lower sintomas).2.*1.
Proof.
  intros Hnd Hk Hv [c Hc].
  assert (Hnd' : NoDup (dict_pop k sintomas).*1).
  { clear -Hnd. unfold dict_pop. induction sintomas as [|[k0 v0] l IH]; [constructor|].
    simpl in Hnd. apply NoDup_cons in Hnd as [Hk0 Hnd]. rewrite filter_cons.
    case_decide; [|by apply IH]. cbn [fmap list_fmap fst]. apply NoDup_cons.
    split; [|by apply IH]. intros Hin. apply Hk0.
    apply list_elem_of_fmap in Hin as (kv & -> & Hin).
    apply list_elem_of_filter in Hin as [_ Hin]. apply list_elem_of_fmap. by exists kv. }
  destruct (muestreo_preparar_spec lower sintomas Hnd) as [H1 H2].
  destruct (muestreo_preparar_spec lower _ Hnd') as [H1' _].
  split.
  - unfold Muestreo.crear_modelo_bayesiano.
    rewrite !observado_assoc, !H1, !H1', !assoc_dict_pop. rewrite !elem_of_cons, elem_of_nil in Hk.
    repeat (rewrite decide_False by (intros <-; tauto)). done.
  - rewrite H2. intros Hin. apply list_elem_of_fmap in Hin as ([k' x] & -> & Hin).
    apply list_elem_of_filter in Hin as [Hn _]. simpl in *. rewrite Hv in Hn.
    simpl in Hn. congruence.
Qed.

Lemma pymc_non_symptom_evidence_lost_witness :
  Muestreo.crear_modelo_bayesiano
    (Some (Muestreo.preparar minusculas [("Tos", "Sí"); ("Gripe", "Sí")]).1)
  = Muestreo.crear_modelo_bayesiano
      (Some (Muestreo.preparar minusculas
               (dict_pop "Gripe" [("Tos", "Sí"); ("Gripe", "Sí")])).1)
  ∧ "Gripe" ∉ (Muestreo.preparar minusculas [("Tos", "Sí"); ("Gripe", "Sí")]).2.*1.
Proof.
  apply (pymc_non_symptom_evidence_lost minusculas _ "Gripe" "Sí").
  - apply (bool_decide_unpack _); vm_compute; reflexivity.
  - apply (bool_decide_unpack _); vm_compute; reflexivity.
  - reflexivity.
  - vm_compute. eexists. reflexivity.
Defined.

Lemma Qc_of_nat_add a b : Qc_of_nat (a + b) = Qc_of_nat a + Qc_of_nat b.
Proof. unfold Qc_of_nat. by rewrite Nat2Z.inj_add, Z2Qc_inj_add. Qed.

Lemma Qc_of_nat_le a b : (a ≤ b)%nat → Qc_of_nat a ≤ Qc_of_nat b.
Proof. intros H. unfold Qc_of_nat. apply (proj1 (Z2Qc_inj_le _ _)). lia. Qed.

Lemma Qc_of_nat_nonneg n : 0 ≤ Qc_of_nat n.
Proof.
  unfold Qc_of_nat. rewrite <- Z2Qc_inj_0. apply (proj1 (Z2Qc_inj_le _ _)). lia.
Qed.

Lemma Qc_of_nat_pos n : (0 < n)%nat → 0 < Qc_of_nat n.
Proof.
  intros H. unfold Qc_of_nat. rewrite <- Z2Qc_inj_0.
  apply (proj1 (Z2Qc_inj_lt _ _)). lia.
Qed.

Lemma sum_indicator (m n : nat) :
  sum_list_with (fun i => if decide (m = i) then 1%nat else 0%nat) (seq 0 n)
  = if decide (m < n)%nat then 1%nat else 0%nat.
Proof.
  induction n as [|n IH]; [by rewrite decide_False by lia|].
  rewrite seq_S, sum_list_with_app, IH. cbn [sum_list_with Nat.add].
  destruct (decide (m = n)), (decide (m < n)%nat), (decide (m < S n)%nat); lia.
Qed.

Lemma sum_counts (muestras : list nat) (n : nat) :
  Forall (λ m, (m < n)%nat) muestras →
  sum_list_with (fun i => length (filter (λ m, m = i) muestras)) (seq 0 n)
  = length muestras.
Proof.
  induction 1 as [|m l Hm _ IH].
  - simpl. induction (seq 0 n) as [|i js IHi]; [done|]. simpl. by rewrite IHi.
  - assert (Hs : ∀ js,
      sum_list_with (fun i => length (filter (λ m', m' = i) (m :: l))) js
      = (sum_list_with (fun i => if decide (m = i) then 1%nat else 0%nat) js
         + sum_list_with (fun i => length (filter (λ m', m' = i) l)) js)%nat).
    { induction js as [|i js IHi]; [done|]. cbn [sum_list_with].
      rewrite IHi, filter_cons. destruct (decide (m = i)); cbn [length]; lia. }
    rewrite Hs, IH, sum_indicator, decide_True by done. done.
Qed.

Lemma sumQc_frecuencias (c : nat → nat) (N : nat) (js : list nat) :
  sumQc (map (fun i => Qc_of_nat (c i) / Qc_of_nat N) js)
  = Qc_of_nat (sum_list_with c js) / Qc_of_nat N.
Proof.
  induction js as [|i js IH].
  - cbn [map sum_list_with]. unfold Qc_of_nat at 1.
    change (Z.of_nat 0) with 0%Z. rewrite Z2Qc_inj_0. unfold sumQc, Qcdiv. simpl. ring.
  - cbn [map sum_list_with]. unfold sumQc in *. cbn [foldr]. rewrite IH, Qc_of_nat_add.
    unfold Qcdiv. ring.
Qed.

Lemma probabilidades_loop {V} (g : nat → V) (es : list string) (js : list nat) acc :
  NoDup es → length js = length es → (∀ e, e ∈ es → e ∉ acc.*1) →
  foldl (fun probs ie => dict_set ie.2 (g ie.1) probs) acc (zip js es)
  = acc ++ zip es (g <$> js).
Proof.
  intros Hnd. revert js acc.
  induction Hnd as [|e es He Hnd IH]; intros [|i js] acc Hlen Hacc; try done.
  - simpl. by rewrite app_nil_r.
  - cbn [zip zip_with foldl fst snd fmap list_fmap].
    rewrite keys_dict_set_new by (apply Hacc; by left).
    change (zip_with pair js es) with (zip js es). rewrite IH.
    + by rewrite <- app_assoc.
    + simpl in Hlen. lia.
    + intros e' He'. rewrite fmap_app. simpl. rewrite elem_of_app, list_elem_of_singleton.
      intros [Hin| ->]; [|done]. revert Hin. apply Hacc. by right.
Qed.

Lemma probabilidades_eq (muestras : list nat) (estados : list string) :
  NoDup estados →
  Muestreo.probabilidades muestras estados
  = zip estados (Muestreo.frecuencia muestras <$> seq 0 (length estados)).
Proof.
  intros Hnd. unfold Muestreo.probabilidades.
  rewrite (probabilidades_loop (Muestreo.frecuencia muestras)); [done|done| |].
  - by rewrite length_seq.
  - intros e _. simpl. apply not_elem_of_nil.
Qed.

(** X12. The probabilities [diagnosticar] of the PyMC script reports
    for one variable: when the sample is not empty, the state labels are
    distinct and every sampled value is the index of a label, each label
    gets a number between 0 and 1 (never NaN), in the order of the
    labels, and the numbers add up to exactly 1. *)
Theorem pymc_frequencies (muestras : list nat) (estados : list string) :
  muestras ≠ [] →
  NoDup estados →
  Forall (λ m, (m < length estados)%nat) muestras →
  ∃ ws : list Qc,
    Muestreo.probabilidades muestras estados = zip estados (Some <$> ws)
    ∧ length ws = length estados
    ∧ sumQc ws = 1
    ∧ Forall (λ w, 0 ≤ w ∧ w ≤ 1) ws.
Proof.
  intros Hne Hnd Hall.
  set (N := length muestras).
  assert (HN : (0 < N)%nat) by (unfold N; destruct muestras; [done|simpl; lia]).
  assert (HNq : 0 < Qc_of_nat N) by by apply Qc_of_nat_pos.
  assert (HN0 : Qc_of_nat N ≠ 0).
  { intros H0. rewrite H0 in HNq. by apply Qclt_not_eq in HNq. }
  set (c := fun i => length (filter (λ m, m = i) muestras)).
  exists (map (fun i => Qc_of_nat (c i) / Qc_of_nat N) (seq 0 (length estados))).
  split; [|split; [|split]].
  - rewrite probabilidades_eq by done. f_equal.
    change (map ?f ?l) with (f <$> l). rewrite <- list_fmap_compose.
    apply list_fmap_ext. intros _ i _. unfold Muestreo.frecuencia. simpl.
    by rewrite decide_False.
  - by rewrite length_map, length_seq.
  - rewrite sumQc_frecuencias. unfold c. rewrite sum_counts by done.
    fold N. unfold Qcdiv. by apply Qcmult_inv_r.
  - apply Forall_forall. intros w Hw. apply list_elem_of_In, in_map_iff in Hw.
    destruct Hw as (i & <- & _). unfold Qcdiv. split.
    + apply Qcmult_nonneg_nonneg.
      * apply Qc_of_nat_nonneg.
      * apply Qclt_le_weak. by apply Qcinv_pos.
    + rewrite <- (Qcmult_inv_r (Qc_of_nat N)) by done.
      apply Qcmult_le_mono_nonneg_r.
      * apply Qclt_le_weak. by apply Qcinv_pos.
      * apply Qc_of_nat_le. unfold c, N. apply length_filter.
Qed.

Lemma pymc_frequencies_witness :
  ∃ ws : list Qc,
    Muestreo.probabilidades [1; 0; 1; 1]%nat ["No"; "Sí"] = zip ["No"; "Sí"] (Some <$> ws)
    ∧ length ws = length ["No"; "Sí"]
    ∧ sumQc ws = 1
    ∧ Forall (λ w, 0 ≤ w ∧ w ≤ 1) ws.
Proof.
  apply (pymc_frequencies [1; 0; 1; 1]%nat ["No"; "Sí"]).
  - discriminate.
  - apply (bool_decide_unpack _); vm_compute; reflexivity.
  - apply (bool_decide_unpack _); vm_compute; reflexivity.
Defined.

Lemma NoDup_filter_keys {V} (P : string * V → Prop) `{∀ x, Decision (P x)}
    (l : list (string * V)) :
  NoDup l.*1 → NoDup (filter P l).*1.
Proof.
  induction l as [|[k v] l IH]; [done|]. simpl. intros [Hk Hnd]%NoDup_cons.
  rewrite filter_cons. case_decide; [|by apply IH]. cbn [fmap list_fmap fst].
  apply NoDup_cons. split; [|by apply IH]. intros Hin. apply Hk.
  apply list_elem_of_fmap in Hin as (kv & -> & Hin).
  apply list_elem_of_filter in Hin as [_ Hin]. apply list_elem_of_fmap. by exists kv.
Qed.

Lemma resumir_loop (trace : Muestreo.Trace) (vp : list (string * list string)) acc :
  NoDup vp.*1 → (∀ k, k ∈ vp.*1 → k ∉ acc.*1) →
  Muestreo.resumir trace vp acc
  = if decide (Forall (λ kv, is_Some (assoc kv.1 trace)) vp)
    then Some (acc ++ ((fun kv => (kv.1, Muestreo.probabilidades
                                           (default [] (assoc kv.1 trace)) kv.2))
                         <$> vp))
    else None.
Proof.
  revert acc. induction vp as [|[enf estados] vp IH]; intros acc Hnd Hacc.
  - cbn [Muestreo.resumir]. rewrite decide_True by constructor.
    cbn [fmap list_fmap]. by rewrite app_nil_r.
  - simpl in Hnd. apply NoDup_cons in Hnd as [Henf Hnd]. cbn [Muestreo.resumir].
    destruct (assoc enf trace) as [muestras|] eqn:He.
    + rewrite keys_dict_set_new by (apply Hacc; left).
      rewrite IH; [|done|].
      * destruct (decide (Forall _ vp)) as [Hall|Hall].
        -- rewrite decide_True.
           ++ cbn [fmap list_fmap fst snd]. rewrite He. simpl. by rewrite <- app_assoc.
           ++ constructor; [simpl; by rewrite He|done].
        -- rewrite decide_False; [done|]. intros Hall'. apply Hall.
           by apply Forall_cons in Hall' as [_ ?].
      * intros k Hk. rewrite fmap_app. simpl.
        rewrite elem_of_app, list_elem_of_singleton. intros [Hin| ->]; [|done].
        revert Hin. apply Hacc. by right.
    + rewrite decide_False; [done|]. intros Hall. apply Forall_cons in Hall as [[x Hx] _].
      simpl in Hx. congruence.
Qed.

(** X13. What [diagnosticar] of the PyMC script returns once the sampler
    has produced a trace: if the trace has samples for every variable
    left in [valores_posibles], the result lists these variables in the
    order of [valores_posibles], each with the frequencies of its own
    samples; if the trace lacks one of them, the lookup fails and the
    function returns [(None, None)]. *)
Theorem pymc_results (lower : string → string)
    (sample : Muestreo.Modelo → option Muestreo.Trace)
    (sintomas : list (string * string)) (trace : Muestreo.Trace) :
  NoDup sintomas.*1 →
  sample (Muestreo.crear_modelo_bayesiano
            (Some (Muestreo.preparar lower sintomas).1)) = Some trace →
  Muestreo.diagnosticar lower sample sintomas
  = if decide (Forall (λ kv, is_Some (assoc kv.1 trace))
                      (Muestreo.preparar lower sintomas).2)
    then Some ((fun kv => (kv.1, Muestreo.probabilidades
                                   (default [] (assoc kv.1 trace)) kv.2))
                 <$> (Muestreo.preparar lower sintomas).2,
               trace)
    else None.
Proof.
  intros Hnd Hs. unfold Muestreo.diagnosticar. cbv zeta. rewrite Hs.
  rewrite resumir_loop.
  - by destruct (decide _).
  - destruct (muestreo_preparar_spec lower sintomas Hnd) as [_ ->].
    apply NoDup_filter_keys. by apply (bool_decide_unpack _).
  - intros k _. simpl. apply not_elem_of_nil.
Qed.

Lemma pymc_results_witness :
  Muestreo.diagnosticar minusculas
    (fun _ => Some [("PG", [0; 2; 1; 0]%nat); ("Gripe", [1; 1; 0; 1]%nat);
                    ("Neumonia", [0; 0; 1; 0]%nat)])
    [("Fiebre", "Sí"); ("Tos", "si"); ("Dolor_cabeza", "NO")]
  = if decide (Forall (λ kv, is_Some (assoc kv.1
                        [("PG", [0; 2; 1; 0]%nat); ("Gripe", [1; 1; 0; 1]%nat);
                         ("Neumonia", [0; 0; 1; 0]%nat)]))
                 (Muestreo.preparar minusculas
                    [("Fiebre", "Sí"); ("Tos", "si"); ("Dolor_cabeza", "NO")]).2)
    then Some ((fun kv => (kv.1, Muestreo.probabilidades
                                   (default [] (assoc kv.1
                        [("PG", [0; 2; 1; 0]%nat); ("Gripe", [1; 1; 0; 1]%nat);
                         ("Neumonia", [0; 0; 1; 0]%nat)])) kv.2))
                 <$> (Muestreo.preparar minusculas
                        [("Fiebre", "Sí"); ("Tos", "si"); ("Dolor_cabeza", "NO")]).2,
               [("PG", [0; 2; 1; 0]%nat); ("Gripe", [1; 1; 0; 1]%nat);
                ("Neumonia", [0; 0; 1; 0]%nat)])
    else None.
Proof.
  apply (pymc_results minusculas).
  - apply (bool_decide_unpack _); vm_compute; reflexivity.
  - reflexivity.
Defined.

(** X14. The validation loop of the interactive mode of the PyMC script:
    it skips every line whose stripped, lower-cased text is not one of
    'sí', 'si', 's', 'n', 'no', stores 'Sí' for the first line that is an
    affirmative form or 'No' for a negative one, and leaves the lines
    after it for the next prompt; it gets past the prompt only through
    such a line. *)
Theorem pymc_prompt (lower strip : string → string) (entradas : list string) :
  match Muestreo.pedir lower strip entradas with
  | Some (valor, resto) =>
      ∃ antes entrada,
        entradas = antes ++ entrada :: resto
        ∧ Forall (λ x, Muestreo.codigo lower (strip x) = None) antes
        ∧ ((Muestreo.codigo lower (strip entrada) = Some 1%nat ∧ valor = "Sí")
           ∨ (Muestreo.codigo lower (strip entrada) = Some 0%nat ∧ valor = "No"))
  | None => Forall (λ x, Muestreo.codigo lower (strip x) = None) entradas
  end.
Proof.
  induction entradas as [|e l IH]; [constructor|]. cbn [Muestreo.pedir].
  assert (Hc : Muestreo.codigo lower (strip e)
               = if bool_decide (lower (strip e) ∈ ["sí"; "si"; "s"; "n"; "no"])
                 then if bool_decide (lower (strip e) ∈ ["sí"; "si"; "s"])
                      then Some 1%nat else Some 0%nat
                 else None).
  { unfold Muestreo.codigo, Muestreo.afirmativa, Muestreo.negativa.
    repeat case_bool_decide; try done; exfalso;
      repeat match goal with
             | H : _ ∈ _ |- _ => rewrite ?elem_of_cons, elem_of_nil in H
             | H : ¬ _ ∈ _ |- _ => rewrite ?elem_of_cons, elem_of_nil in H
             end; tauto. }
  destruct (bool_decide (lower (strip e) ∈ ["sí"; "si"; "s"; "n"; "no"])).
  - exists [], e. split; [done|]. split; [constructor|].
    destruct (bool_decide (lower (strip e) ∈ ["sí"; "si"; "s"])); [by left|by right].
  - destruct (Muestreo.pedir lower strip l) as [[v resto]|].
    + destruct IH as (antes & entrada & -> & Hantes & Hv).
      exists (e :: antes), entrada. split; [done|]. split; [by constructor|done].
    + by constructor.
Qed.

Lemma pedir_valor lower strip entradas valor resto :
  Muestreo.pedir lower strip entradas = Some (valor, resto) →
  valor = "Sí" ∨ valor = "No".
Proof.
  induction entradas as [|e l IH]; [done|]. cbn [Muestreo.pedir].
  destruct (bool_decide (lower (strip e) ∈ ["sí"; "si"; "s"; "n"; "no"])); [|done].
  intros [= <- _]. destruct (bool_decide _); auto.
Qed.

Lemma codigo_si lower : lower "Sí" = "sí" → Muestreo.codigo lower "Sí" = Some 1%nat.
Proof. intros H. unfold Muestreo.codigo, Muestreo.afirmativa. by rewrite H. Qed.

Lemma codigo_no lower : lower "No" = "no" → Muestreo.codigo lower "No" = Some 0%nat.
Proof.
  intros H. unfold Muestreo.codigo, Muestreo.afirmativa, Muestreo.negativa.
  by rewrite H.
Qed.

(** X15. The interactive mode of the PyMC script, from the typed lines
    to the model: once the three prompts are passed, [sintomas] has
    exactly Fiebre, Tos and Dolor_cabeza, in this order, with the values
    'Sí' or 'No'; [diagnosticar] recognizes each of them again (given
    that lower-casing turns 'Sí' into 'sí' and 'No' into 'no'), so the
    model observes all three symptoms, with 1 exactly for 'Sí', and the
    variables reported are PG, Gripe and Neumonia. *)
Theorem pymc_interactive (lower strip : string → string)
    (entradas : list string) (sintomas : list (string * string))
    (resto : list string) :
  lower "Sí" = "sí" →
  lower "No" = "no" →
  Muestreo.leer_sintomas lower strip entradas = Some (sintomas, resto) →
  sintomas.*1 = ["Fiebre"; "Tos"; "Dolor_cabeza"]
  ∧ Forall (λ kv, kv.2 = "Sí" ∨ kv.2 = "No") sintomas
  ∧ (∀ k, k ∈ ["Fiebre"; "Tos"; "Dolor_cabeza"] →
          Muestreo.observado (Some (Muestreo.preparar lower sintomas).1) k
          = Some (if decide (assoc k sintomas = Some "Sí") then 1%nat else 0%nat))
  ∧ (Muestreo.preparar lower sintomas).2
    = [("PG", ["Alta"; "Media"; "Baja"]); ("Gripe", ["No"; "Sí"]);
       ("Neumonia", ["No"; "Sí"])].
Proof.
  intros Hsi Hno. unfold Muestreo.leer_sintomas. cbn [Muestreo.pedir_todos].
  destruct (Muestreo.pedir lower strip entradas) as [[v1 r1]|] eqn:H1; [|done].
  destruct (Muestreo.pedir lower strip r1) as [[v2 r2]|] eqn:H2; [|done].
  destruct (Muestreo.pedir lower strip r2) as [[v3 r3]|] eqn:H3; [|done].
  apply pedir_valor in H1, H2, H3. intros [= <- <-].
  assert (Hs : dict_set "Dolor_cabeza" v3 (dict_set "Tos" v2 (dict_set "Fiebre" v1 []))
               = [("Fiebre", v1); ("Tos", v2); ("Dolor_cabeza", v3)]) by reflexivity.
  rewrite Hs. clear Hs.
  set (s := [("Fiebre", v1); ("Tos", v2); ("Dolor_cabeza", v3)]).
  assert (Hnd : NoDup s.*1) by (apply (bool_decide_unpack _); vm_compute; reflexivity).
  assert (Hc : ∀ v, v = "Sí" ∨ v = "No" →
                    Muestreo.codigo lower v
                    = Some (if decide (Some v = Some "Sí") then 1%nat else 0%nat)).
  { intros v [-> | ->]; [by rewrite codigo_si|by rewrite codigo_no]. }
  destruct (muestreo_preparar_spec lower s Hnd) as [Hp1 Hp2].
  split; [done|]. split.
  { unfold s. repeat (apply Forall_cons; split; [done|]). apply Forall_nil_2. }
  split.
  - intros k Hk. rewrite observado_assoc, Hp1.
    rewrite !elem_of_cons, elem_of_nil in Hk.
    destruct Hk as [-> |[-> |[-> |[]]]]; simpl; by rewrite Hc.
  - rewrite Hp2. unfold PyMC.valores_posibles. rewrite !filter_cons, filter_nil.
    simpl. rewrite !Hc by done. done.
Qed.

Lemma pymc_interactive_witness :
  (Muestreo.preparar minusculas
     [("Fiebre", "Sí"); ("Tos", "No"); ("Dolor_cabeza", "No")]).2
  = [("PG", ["Alta"; "Media"; "Baja"]); ("Gripe", ["No"; "Sí"]);
     ("Neumonia", ["No"; "Sí"])].
Proof.
  refine (proj2 (proj2 (proj2
    (pymc_interactive minusculas (fun x => x) ["s"; "tal vez"; "NO"; "n"; "x"]
       [("Fiebre", "Sí"); ("Tos", "No"); ("Dolor_cabeza", "No")] ["x"] _ _ _)))).
  - reflexivity.
  - reflexivity.
  - vm_compute. reflexivity.
Defined.

(** X16. The distributions of [crear_modelo_bayesiano] in the PyMC
    script are proper whatever values the parents take: the categorical
    prior of PG is positive and sums to 1, and every [switch] expression
    yields a Bernoulli parameter strictly between 0 and 1, also in its
    final else branch; so both outcomes of every node have positive mass
    and the two masses add up to 1. *)
Theorem pymc_parameters_proper (pg gripe neumonia x : nat) :
  sumQc PyMC.pg_probs = 1
  ∧ Forall (λ p, 0 < p) PyMC.pg_probs
  ∧ Forall (λ p, 0 < p ∧ p < 1
                 ∧ 0 < PyMC.bernoulli p 0 ∧ 0 < PyMC.bernoulli p 1
                 ∧ PyMC.bernoulli p 0 + PyMC.bernoulli p 1 = 1
                 ∧ ((1 < x)%nat → PyMC.bernoulli p x = 0))
      [PyMC.p_gripe pg; PyMC.p_neumonia pg; PyMC.p_fiebre gripe neumonia;
       PyMC.p_tos neumonia; PyMC.p_dolor gripe].
Proof.
  split; [by apply Qc_is_canon|]. split.
  { repeat (apply Forall_cons; split; [done|]). apply Forall_nil_2. }
  assert (Hb : ∀ p, 0 < p → p < 1 →
                0 < p ∧ p < 1
                ∧ 0 < PyMC.bernoulli p 0 ∧ 0 < PyMC.bernoulli p 1
                ∧ PyMC.bernoulli p 0 + PyMC.bernoulli p 1 = 1
                ∧ ((1 < x)%nat → PyMC.bernoulli p x = 0)).
  { intros p H0 H1. split; [done|]. split; [done|]. unfold PyMC.bernoulli. simpl.
    split; [|split; [done|split; [ring|]]].
    - apply (proj2 (Qcplus_lt_mono_r _ _ p)). by ring_simplify.
    - intros Hx. destruct x as [|[|x]]; [lia|lia|done]. }
  repeat (apply Forall_cons; split); [..|apply Forall_nil_2]; apply Hb.
  all: unfold PyMC.p_gripe, PyMC.p_neumonia, PyMC.p_fiebre, PyMC.p_tos, PyMC.p_dolor.
  all: repeat match goal with
              | |- context [if ?b then _ else _] => destruct b
              end; done.
Qed.
